(** * bni-discovery: the conversation aggregator and the meeting actions

    A shallow embedding of the data-shaping code of the application:
    - [src/types/database.ts]: the records that travel between the store
      and the screens;
    - [src/app/(tabs)/messages.tsx], [fetchConversations]: the grouping of
      a flat message list into one summary per counterparty, the batch
      profile lookup and the final sort;
    - [src/app/(tabs)/schedule.tsx], [updateMeetingStatus] and the action
      buttons of a meeting card;
    - the other store mutations of the repository
      ([src/app/(tabs)/index.tsx], [src/app/(tabs)/connections.tsx]).

    JavaScript objects that are mutated through several references (the
    [Conversation] objects held by the [Map] and by the filtered array
    [conversationsWithoutProfiles]) live in an explicit object table and are
    named by references; asynchronous store calls are answered by an oracle
    and everything that a function does to its surroundings (screen state,
    issued requests, console, alerts) is threaded through a small
    state-and-exception monad. *)

From stdpp Require Import base option list strings sorting pretty.
From Stdlib Require Import ZArith Lia.

Local Open Scope string_scope.
Local Open Scope Z_scope.
Local Open Scope list_scope.

(** ** Data model ([src/types/database.ts]) *)

(** A user id as it reaches the code at run time. The declared type is
    [string]; rows come from the store untyped, so a missing property reads
    as [undefined], which is [None] here. *)
Abbreviation Id := (option string).

Module UserProfile.
Inductive Status := available | busy | offline.

Record t := mk {
  id : string;
  email : string;
  first_name : string;
  last_name : string;
  bio : option string;
  industry : option string;
  job_title : option string;
  company : option string;
  avatar_url : option string;
  status : Status;
  location : option string;
  preferred_meeting_times : option (list string);
  interests : option (list string);
  created_at : string;
  updated_at : string
}.
End UserProfile.

Module Message.
(** [created_at] is kept as the time value (milliseconds since the epoch)
    that [new Date(created_at)] denotes: the code looks at the field
    through [new Date(..)] only, and the column is a timestamp that the
    store serialises in ISO-8601. Two messages are compared as their
    [Date]s are, to the millisecond. [sender_profile] is the embedded
    relation [profiles!messages_sender_id_fkey]. *)
Record t := mk {
  id : string;
  sender_id : Id;
  receiver_id : Id;
  content : string;
  read : bool;
  created_at : Z;
  sender_profile : option UserProfile.t
}.
End Message.

Module Meeting.
Inductive Status := pending | confirmed | cancelled | completed.

#[global] Instance Status_eq_dec : EqDecision Status.
Proof. solve_decision. Defined.

Record t := mk {
  id : string;
  organizer_id : string;
  attendee_id : string;
  title : string;
  description : option string;
  scheduled_for : Z;
  duration_minutes : Z;
  location : option string;
  status : Status;
  created_at : string;
  organizer_profile : option UserProfile.t;
  attendee_profile : option UserProfile.t
}.
End Meeting.

Module Connection.
Inductive Status := pending | accepted | rejected.

Record t := mk {
  id : string;
  requester_id : string;
  requested_id : string;
  status : Status;
  created_at : string;
  requester_profile : option UserProfile.t;
  requested_profile : option UserProfile.t
}.
End Connection.

(** The signed-in user of [useAuth()]; only [user.id] is read. *)
Record User := { user_id : string }.

(** ** Exceptions and completions *)

Inductive Exn :=
| TypeError (what : string)
| StoreError (what : string).

Inductive Completion (A : Type) :=
| Normal (a : A)
| Throw (e : Exn).
Arguments Normal {A} a.
Arguments Throw {A} e.

#[global] Instance Completion_ret : MRet Completion := @Normal.
#[global] Instance Completion_bind : MBind Completion := λ A B f c,
  match c with
  | Normal a => f a
  | Throw e => Throw e
  end.

(** ** The [Conversation] objects and the [Map] that holds them
    ([messages.tsx], lines 16-21 and 70) *)

(** [otherUserProfile] is [None] for [null] and for [undefined], which the
    code does not tell apart ([!conv.otherUserProfile]); [unreadCount] only
    ever grows by one from 0, well inside the exact range of a number. *)
Record Conversation := {
  otherUserId : Id;
  otherUserProfile : option UserProfile.t;
  lastMessage : option Message.t;
  unreadCount : nat
}.

Definition set_lastMessage (message : Message.t) (c : Conversation) : Conversation :=
  {| otherUserId := otherUserId c;
     otherUserProfile := otherUserProfile c;
     lastMessage := Some message;
     unreadCount := unreadCount c |}.

Definition incr_unreadCount (c : Conversation) : Conversation :=
  {| otherUserId := otherUserId c;
     otherUserProfile := otherUserProfile c;
     lastMessage := lastMessage c;
     unreadCount := S (unreadCount c) |}.

Definition set_otherUserProfile (p : option UserProfile.t) (c : Conversation) : Conversation :=
  {| otherUserId := otherUserId c;
     otherUserProfile := p;
     lastMessage := lastMessage c;
     unreadCount := unreadCount c |}.

(** A reference to a [Conversation] object: its index in the object table. *)
Abbreviation Ref := nat (only parsing).

(** A JavaScript [Map<string, Conversation>]: keys in insertion order, each
    bound to a reference. *)
Abbreviation JsMap := (list (Id * nat)) (only parsing).

Fixpoint Map_get (k : Id) (m : JsMap) : option Ref :=
  match m with
  | [] => None
  | (k', r) :: m' => if decide (k' = k) then Some r else Map_get k m'
  end.

Definition Map_has (k : Id) (m : JsMap) : bool :=
  match Map_get k m with Some _ => true | None => false end.

(** [Map.prototype.set]: an existing key keeps its place, a new key goes
    last. *)
Fixpoint Map_set (k : Id) (r : Ref) (m : JsMap) : JsMap :=
  match m with
  | [] => [(k, r)]
  | (k', r') :: m' =>
      if decide (k' = k) then (k', r) :: m' else (k', r') :: Map_set k r m'
  end.

Definition Map_values (m : JsMap) : list Ref := m.*2.

(** The objects allocated by one run of the aggregation, and the map. *)
Record Aggregation := {
  objects : list Conversation;
  conversationMap : list (Id * nat)
}.

Definition empty_Aggregation : Aggregation :=
  {| objects := []; conversationMap := [] |}.

(** Reading through a reference; a reference that names no object is the
    [undefined] on which a property access throws. *)
Definition deref (heap : list Conversation) (r : Ref) : Completion Conversation :=
  match heap !! r with
  | Some c => Normal c
  | None => Throw (TypeError "Cannot read properties of undefined")
  end.

(** Assigning to a field of the object behind a reference. *)
Definition assign (f : Conversation → Conversation) (r : Ref) (st : Aggregation)
  : Completion Aggregation :=
  c ← deref (objects st) r;
  mret {| objects := <[r := f c]> (objects st);
          conversationMap := conversationMap st |}.

(** ** The grouping loop ([messages.tsx], lines 72-95) *)

(** Line 73. *)
Definition otherUserIdOf (user : User) (message : Message.t) : Id :=
  if decide (Message.sender_id message = Some (user_id user))
  then Message.receiver_id message
  else Message.sender_id message.

(** Line 87: [!conversation.lastMessage || new Date(message.created_at) >
    new Date(conversation.lastMessage.created_at)]. *)
Definition more_recent (message : Message.t) (c : Conversation) : bool :=
  match lastMessage c with
  | None => true
  | Some last => Message.created_at last <? Message.created_at message
  end.

(** Line 92: [message.receiver_id === user.id && !message.read]. *)
Definition is_unread (user : User) (message : Message.t) : bool :=
  bool_decide (Message.receiver_id message = Some (user_id user))
  && negb (Message.read message).

(** Lines 76-81: the object put in the map for a counterparty that has no
    entry yet. *)
Definition newConversation (user : User) (message : Message.t) : Conversation :=
  {| otherUserId := otherUserIdOf user message;
     otherUserProfile :=
       if decide (Message.sender_id message ≠ Some (user_id user))
       then Message.sender_profile message else None;
     lastMessage := Some message;
     unreadCount := 0 |}.

(** The body of the [forEach] callback, for one message. *)
Definition groupStep (user : User) (st : Aggregation) (message : Message.t)
  : Completion Aggregation :=
  let otherUserId := otherUserIdOf user message in
  let st :=
    if negb (Map_has otherUserId (conversationMap st)) then
      {| objects := objects st ++ [newConversation user message];
         conversationMap :=
           Map_set otherUserId (length (objects st)) (conversationMap st) |}
    else st in
  match Map_get otherUserId (conversationMap st) with
  | None => Throw (TypeError "Cannot read properties of undefined")
  | Some conversation =>
      c ← deref (objects st) conversation;
      st ← (if more_recent message c
            then assign (set_lastMessage message) conversation st
            else mret st);
      if is_unread user message
      then assign incr_unreadCount conversation st
      else mret st
  end.

(** [messages?.forEach(..)]: the callback runs on the messages in order. *)
Fixpoint forEach {A S : Type} (f : S → A → Completion S) (l : list A) (st : S)
  : Completion S :=
  match l with
  | [] => mret st
  | x :: l' => st' ← f st x; forEach f l' st'
  end.

Definition groupMessages (user : User) (messages : list Message.t)
  : Completion Aggregation :=
  forEach (groupStep user) messages empty_Aggregation.

(** ** Missing profiles ([messages.tsx], lines 97-111) *)

(** [Array.from(conversationMap.values())]: the objects of the map, in
    insertion order. The array holds the objects themselves (references). *)
Definition Array_from_values (st : Aggregation) : list Ref :=
  Map_values (conversationMap st).

(** [array.filter(conv => p conv)] on an array of objects. *)
Fixpoint Array_filter (p : Conversation → bool) (heap : list Conversation)
    (refs : list Ref) : Completion (list Ref) :=
  match refs with
  | [] => mret []
  | r :: refs' =>
      c ← deref heap r;
      rest ← Array_filter p heap refs';
      mret (if p c then r :: rest else rest)
  end.

(** Line 99: [conv => !conv.otherUserProfile]. *)
Definition lacks_profile (conv : Conversation) : bool :=
  match otherUserProfile conv with Some _ => false | None => true end.

(** Lines 98-99. *)
Definition conversationsWithoutProfiles (st : Aggregation) : Completion (list Ref) :=
  Array_filter lacks_profile (objects st) (Array_from_values st).

(** Line 102: [conversationsWithoutProfiles.map(conv => conv.otherUserId)]. *)
Definition userIdsOf (st : Aggregation) (without : list Ref) : Completion (list Id) :=
  mapM (λ conv, c ← deref (objects st) conv; mret (otherUserId c)) without.

(** Line 109: [profiles?.find(p => p.id === conv.otherUserId)]; [profiles]
    is [null] when the store answered without data. *)
Definition find_profile (profiles : option (list UserProfile.t)) (k : Id)
  : option UserProfile.t :=
  match profiles with
  | None => None
  | Some ps => List.find (λ p, bool_decide (Some (UserProfile.id p) = k)) ps
  end.

(** Lines 108-110: the objects of the filtered array are the objects of the
    map, so the assignment is seen through the map afterwards. *)
Definition attachProfiles (profiles : option (list UserProfile.t))
    (without : list Ref) (st : Aggregation) : Completion Aggregation :=
  forEach (λ st conv,
             c ← deref (objects st) conv;
             assign (set_otherUserProfile (find_profile profiles (otherUserId c)))
                    conv st)
          without st.

(** ** The final sort ([messages.tsx], lines 113-117) *)

(** Lines 114-117. The difference of two time values is an integer; only
    its sign is used by the sort. *)
Definition compareConversations (a b : Conversation) : Z :=
  match lastMessage a, lastMessage b with
  | Some la, Some lb => Message.created_at lb - Message.created_at la
  | _, _ => 0
  end.

(** [Array.prototype.sort(comparefn)] is a stable sort; it is rendered as
    the stable insertion sort: an element is put in front of the first
    later element that the comparator does not order before it. *)
Fixpoint sort_insert {A : Type} (comparefn : A → A → Z) (x : A) (l : list A) : list A :=
  match l with
  | [] => [x]
  | y :: l' =>
      if comparefn x y <=? 0 then x :: y :: l' else y :: sort_insert comparefn x l'
  end.

Fixpoint Array_sort {A : Type} (comparefn : A → A → Z) (l : list A) : list A :=
  match l with
  | [] => []
  | x :: l' => sort_insert comparefn x (Array_sort comparefn l')
  end.

(** Lines 113-117: the array handed to [setConversations], read at that
    point. *)
Definition conversationList (st : Aggregation) : Completion (list Conversation) :=
  convs ← mapM (deref (objects st)) (Array_from_values st);
  mret (Array_sort compareConversations convs).

(** Lines 70-117 as one function of the fetched messages and of the
    [profiles] that the batch lookup hands back (unused when no profile is
    missing). *)
Definition aggregate (user : User) (messages : list Message.t)
    (profiles : option (list UserProfile.t)) : Completion (list Conversation) :=
  st ← groupMessages user messages;
  without ← conversationsWithoutProfiles st;
  st ← (if (0 <? length without)%nat
        then attachProfiles profiles without st
        else mret st);
  conversationList st.

(** ** Effects: screen state, store calls, exceptions *)

(** A computation runs in a world [W] and completes normally or by a
    throw. *)
Definition M (W A : Type) : Type := W → Completion A * W.

#[global] Instance M_ret {W} : MRet (M W) := λ A a w, (Normal a, w).
#[global] Instance M_bind {W} : MBind (M W) := λ A B f m w,
  match m w with
  | (Normal a, w') => f a w'
  | (Throw e, w') => (Throw e, w')
  end.

Definition throw {W A} (e : Exn) : M W A := λ w, (Throw e, w).

(** A pure step that may throw. *)
Definition lift {W A} (c : Completion A) : M W A := λ w, (c, w).

(** [try { body } catch (error) { handler }]. *)
Definition try_catch {W A} (body : M W A) (handler : Exn → M W A) : M W A := λ w,
  match body w with
  | (Normal a, w') => (Normal a, w')
  | (Throw e, w') => handler e w'
  end.

(** [try { body } catch (error) { handler } finally { finalizer }]. *)
Definition try_catch_finally {W A} (body : M W A) (handler : Exn → M W A)
    (finalizer : M W unit) : M W A := λ w,
  let '(r, w) := try_catch body handler w in
  match finalizer w with
  | (Normal _, w') => (r, w')
  | (Throw e, w') => (Throw e, w')
  end.

(** What an awaited store call settles to: the client resolves with a
    [{ data, error }] pair, or the promise rejects. *)
Record Response (A : Type) := { data : option A; error : option string }.
Arguments data {A} _.
Arguments error {A} _.

Inductive Awaited (A : Type) :=
| Resolved (a : A)
| Rejected (e : Exn).
Arguments Resolved {A} a.
Arguments Rejected {A} e.

(** The fields of a profile row that [updateProfile] is called with
    ([src/unnamed/part_000], lines 30-38, 43 and 74). *)
Record ProfileUpdates := {
  upd_first_name : option string;
  upd_last_name : option string;
  upd_bio : option string;
  upd_job_title : option string;
  upd_company : option string;
  upd_industry : option string;
  upd_location : option string;
  upd_status : option UserProfile.Status
}.

(** The three filters of [fetchConnections] ([connections.tsx], lines
    43-44, 55-56 and 67-68). *)
Inductive ConnectionFilter :=
| accepted_involving (user_id : string)
| pending_requested (user_id : string)
| pending_requester (user_id : string).

(** The requests that the screens send to the store. *)
Inductive Request :=
| select_messages (user_id : string)                  (* messages.tsx:58-65 *)
| select_profiles_in (userIds : list Id)              (* messages.tsx:103-106 *)
| select_profiles_except (user_id : string)           (* index.tsx:42-46 *)
| select_meetings (user_id : string) (selectedDate : Z) (* schedule.tsx:38-48 *)
| update_meeting (status : Meeting.Status) (id : string) (* schedule.tsx:68-71 *)
| insert_connection (requester_id requested_id : string)
    (status : Connection.Status)                      (* index.tsx:91-97 *)
| update_connection (status : Connection.Status) (id : string)
                                                      (* connections.tsx:91-94 *)
| select_connections (filter : ConnectionFilter)       (* connections.tsx:36-68 *)
| update_profile (updates : ProfileUpdates) (id : string).

(** The answers of the store, one oracle per kind of request. *)
Record Store := {
  messages_involving : string → Awaited (Response (list Message.t));
  profiles_with_id_in : list Id → Awaited (Response (list UserProfile.t));
  profiles_except : string → Awaited (Response (list UserProfile.t));
  meetings_on : string → Z → Awaited (Response (list Meeting.t));
  connections_matching : ConnectionFilter → Awaited (Response (list Connection.t));
  written : Request → Awaited (Response unit)
}.

(** The world of a screen: its [useState] cells [S], the requests sent so
    far, the lines of [console.error] and the [Alert.alert] dialogs. *)
Record World (S : Type) := {
  screen : S;
  requests : list Request;
  console : list (string * Exn);
  alerts : list (string * string)
}.
Arguments screen {S} _.
Arguments requests {S} _.
Arguments console {S} _.
Arguments alerts {S} _.

Definition setState {S} (f : S → S) : M (World S) unit := λ w,
  (Normal tt, {| screen := f (screen w); requests := requests w;
                 console := console w; alerts := alerts w |}).

Definition console_error {S} (what : string) (e : Exn) : M (World S) unit := λ w,
  (Normal tt, {| screen := screen w; requests := requests w;
                 console := console w ++ [(what, e)]; alerts := alerts w |}).

Definition Alert_alert {S} (title message : string) : M (World S) unit := λ w,
  (Normal tt, {| screen := screen w; requests := requests w;
                 console := console w;
                 alerts := alerts w ++ [(title, message)] |}).

(** [await supabase.from(..)...]: the request goes out, then the call
    settles. *)
Definition await {S A} (rq : Request) (answer : Awaited A) : M (World S) A := λ w,
  let w' := {| screen := screen w; requests := requests w ++ [rq];
               console := console w; alerts := alerts w |} in
  match answer with
  | Resolved a => (Normal a, w')
  | Rejected e => (Throw e, w')
  end.

(** ** The messages screen ([messages.tsx], lines 23-125) *)

Module MessagesScreen.

Record State := {
  conversations : list Conversation;
  loading : bool
}.

Definition setConversations (l : list Conversation) : M (World State) unit :=
  setState (λ s, {| conversations := l; loading := loading s |}).

Definition setLoading (b : bool) : M (World State) unit :=
  setState (λ s, {| conversations := conversations s; loading := b |}).

(** Lines 52-125. *)
Definition fetchConversations (store : Store) (user : option User)
  : M (World State) unit :=
  match user with
  | None => mret tt
  | Some user =>
      setLoading true;;
      try_catch_finally
        (resp ← await (select_messages (user_id user))
                      (messages_involving store (user_id user));
         match error resp with
         | Some e => throw (StoreError e)
         | None =>
             st ← lift (match data resp with
                        | Some messages => groupMessages user messages
                        | None => mret empty_Aggregation
                        end);
             without ← lift (conversationsWithoutProfiles st);
             st ← (if (0 <? length without)%nat then
                     userIds ← lift (userIdsOf st without);
                     presp ← await (select_profiles_in userIds)
                                   (profiles_with_id_in store userIds);
                     lift (attachProfiles (data presp) without st)
                   else mret st);
             l ← lift (conversationList st);
             setConversations l
         end)
        (λ e, console_error "Error fetching conversations:" e)
        (setLoading false)
  end.

End MessagesScreen.

(** ** The schedule screen ([schedule.tsx]) *)

Module ScheduleScreen.

Record State := {
  meetings : list Meeting.t;
  selectedDate : Z;
  loading : bool
}.

Definition setMeetings (l : list Meeting.t) : M (World State) unit :=
  setState (λ s, {| meetings := l; selectedDate := selectedDate s;
                    loading := loading s |}).

Definition setLoading (b : bool) : M (World State) unit :=
  setState (λ s, {| meetings := meetings s; selectedDate := selectedDate s;
                    loading := b |}).

(** Lines 27-58; the bounds of the query are the first and last instant
    of [selectedDate], which the request records by that date. *)
Definition fetchMeetings (store : Store) (user : option User) : M (World State) unit :=
  match user with
  | None => mret tt
  | Some user =>
      setLoading true;;
      try_catch_finally
        (λ w,
           (resp ← await (select_meetings (user_id user) (selectedDate (screen w)))
                         (meetings_on store (user_id user) (selectedDate (screen w)));
            match error resp with
            | Some e => throw (StoreError e)
            | None => setMeetings (default [] (data resp))
            end) w)
        (λ e, console_error "Error fetching meetings:" e;;
              Alert_alert "Error" "Failed to load meetings")
        (setLoading false)
  end.

(** The parameter type ['confirmed' | 'cancelled'] of line 66. *)
Inductive NewStatus := confirmed | cancelled.

Definition status_of (d : NewStatus) : Meeting.Status :=
  match d with
  | confirmed => Meeting.confirmed
  | cancelled => Meeting.cancelled
  end.

Definition text_of (d : NewStatus) : string :=
  match d with
  | confirmed => "confirmed"
  | cancelled => "cancelled"
  end.

(** Lines 66-81. The call [fetchMeetings()] of line 76 is not awaited;
    it catches its own failures and is run here in place. *)
Definition updateMeetingStatus (store : Store) (user : option User)
    (meetingId : string) (status : NewStatus) : M (World State) unit :=
  try_catch
    (resp ← await (update_meeting (status_of status) meetingId)
                  (written store (update_meeting (status_of status) meetingId));
     match error resp with
     | Some e => throw (StoreError e)
     | None =>
         Alert_alert "Success" ("Meeting " +:+ text_of status +:+ "!");;
         fetchMeetings store user
     end)
    (λ e, console_error "Error updating meeting:" e;;
          Alert_alert "Error" "Failed to update meeting").

(** A [TouchableOpacity] with its caption and its [onPress] handler, if
    it has one. *)
Record Touchable := {
  caption : string;
  onPress : option (M (World State) unit)
}.

(** Lines 237-261: the buttons of the card of one meeting. *)
Definition meetingActions (store : Store) (user : option User)
    (meeting : Meeting.t) : list Touchable :=
  (if decide (Meeting.status meeting = Meeting.pending) then
     [ {| caption := "Confirm";
          onPress := Some (updateMeetingStatus store user (Meeting.id meeting) confirmed) |};
       {| caption := "Cancel";
          onPress := Some (updateMeetingStatus store user (Meeting.id meeting) cancelled) |} ]
   else [])
  ++
  (if decide (Meeting.status meeting = Meeting.confirmed) then
     [ {| caption := "Join Meeting"; onPress := None |} ]
   else []).

End ScheduleScreen.

(** ** The discover screen ([index.tsx], lines 37-56 and 87-105) *)

Module DiscoverScreen.

Record State := {
  profiles : list UserProfile.t;
  loading : bool
}.

Definition setProfiles (l : list UserProfile.t) : M (World State) unit :=
  setState (λ s, {| profiles := l; loading := loading s |}).

Definition setLoading (b : bool) : M (World State) unit :=
  setState (λ s, {| profiles := profiles s; loading := b |}).

(** Lines 37-56. *)
Definition fetchProfiles (store : Store) (user : option User) : M (World State) unit :=
  match user with
  | None => mret tt
  | Some user =>
      setLoading true;;
      try_catch_finally
        (resp ← await (select_profiles_except (user_id user))
                      (profiles_except store (user_id user));
         match error resp with
         | Some e => throw (StoreError e)
         | None => setProfiles (default [] (data resp))
         end)
        (λ e, console_error "Error fetching profiles:" e;;
              Alert_alert "Error" "Failed to load profiles")
        (setLoading false)
  end.

(** Lines 87-105. *)
Definition sendConnectionRequest (store : Store) (user : option User)
    (targetUserId : string) : M (World State) unit :=
  match user with
  | None => mret tt
  | Some user =>
      let rq := insert_connection (user_id user) targetUserId Connection.pending in
      try_catch
        (resp ← await rq (written store rq);
         match error resp with
         | Some e => throw (StoreError e)
         | None => Alert_alert "Success" "Connection request sent!"
         end)
        (λ e, console_error "Error sending connection request:" e;;
              Alert_alert "Error" "Failed to send connection request")
  end.

End DiscoverScreen.

(** ** The connections screen ([connections.tsx], lines 30-104) *)

Module ConnectionsScreen.

Record State := {
  connections : list Connection.t;
  pendingRequests : list Connection.t;
  sentRequests : list Connection.t;
  loading : bool
}.

Definition setLists (a p t : list Connection.t) : M (World State) unit :=
  setState (λ s, {| connections := a; pendingRequests := p; sentRequests := t;
                    loading := loading s |}).

Definition setLoading (b : bool) : M (World State) unit :=
  setState (λ s, {| connections := connections s;
                    pendingRequests := pendingRequests s;
                    sentRequests := sentRequests s; loading := b |}).

(** One of the three queries of lines 36-70: [await], then
    [if (error) throw error]. *)
Definition query (store : Store) (f : ConnectionFilter)
  : M (World State) (option (list Connection.t)) :=
  resp ← await (select_connections f) (connections_matching store f);
  match error resp with
  | Some e => throw (StoreError e)
  | None => mret (data resp)
  end.

(** Lines 30-81. *)
Definition fetchConnections (store : Store) (user : option User)
  : M (World State) unit :=
  match user with
  | None => mret tt
  | Some user =>
      setLoading true;;
      try_catch_finally
        (acceptedConnections ← query store (accepted_involving (user_id user));
         pendingData ← query store (pending_requested (user_id user));
         sentData ← query store (pending_requester (user_id user));
         setLists (default [] acceptedConnections) (default [] pendingData)
                  (default [] sentData))
        (λ e, console_error "Error fetching connections:" e;;
              Alert_alert "Error" "Failed to load connections")
        (setLoading false)
  end.

(** The parameter type ['accepted' | 'rejected'] of line 89. *)
Inductive Answer := accepted | rejected.

Definition status_of (a : Answer) : Connection.Status :=
  match a with
  | accepted => Connection.accepted
  | rejected => Connection.rejected
  end.

Definition text_of (a : Answer) : string :=
  match a with
  | accepted => "accepted"
  | rejected => "rejected"
  end.

(** Lines 89-104; [fetchConnections()] is not awaited and is run in
    place. *)
Definition handleConnectionResponse (store : Store) (user : option User)
    (connectionId : string) (status : Answer) : M (World State) unit :=
  let rq := update_connection (status_of status) connectionId in
  try_catch
    (resp ← await rq (written store rq);
     match error resp with
     | Some e => throw (StoreError e)
     | None =>
         Alert_alert "Success" ("Connection " +:+ text_of status +:+ "!");;
         fetchConnections store user
     end)
    (λ e, console_error "Error updating connection:" e;;
          Alert_alert "Error" "Failed to update connection").

End ConnectionsScreen.

(** ** The profile screen ([src/unnamed/part_000], lines 27-78) *)

Module ProfileScreen.

Record State := {
  editing : bool;
  editedProfile : ProfileUpdates
}.

Definition setEditing (b : bool) : M (World State) unit :=
  setState (λ s, {| editing := b; editedProfile := editedProfile s |}).

(** Modelled from the spec: [updateProfile] of [useAuth()] is defined in
    [AuthContext], which is not among the sources. The spec lists profile
    fields and presence status among the update-one-by-id mutations of the
    store (section 6) and says that a profile is mutated only by its owner
    (section 3): the call updates the row of the signed-in user and hands
    back the [error] of the answer. *)
Definition updateProfile (store : Store) (user : option User)
    (updates : ProfileUpdates) : M (World State) (option string) :=
  match user with
  | None => mret (Some "No user logged in")
  | Some user =>
      let rq := update_profile updates (user_id user) in
      resp ← await rq (written store rq);
      mret (error resp)
  end.

(** Lines 41-53. *)
Definition handleSave (store : Store) (user : option User) : M (World State) unit :=
  try_catch
    (λ w,
       (error ← updateProfile store user (editedProfile (screen w));
        match error with
        | Some e => Alert_alert "Error" e
        | None =>
            setEditing false;;
            Alert_alert "Success" "Profile updated successfully!"
        end) w)
    (λ _, Alert_alert "Error" "Failed to update profile").

(** Line 74: the object literal [{ status }]. *)
Definition status_only (status : UserProfile.Status) : ProfileUpdates :=
  {| upd_first_name := None; upd_last_name := None; upd_bio := None;
     upd_job_title := None; upd_company := None; upd_industry := None;
     upd_location := None; upd_status := Some status |}.

(** Lines 73-78. *)
Definition updateStatus (store : Store) (user : option User)
    (status : UserProfile.Status) : M (World State) unit :=
  error ← updateProfile store user (status_only status);
  match error with
  | Some _ => Alert_alert "Error" "Failed to update status"
  | None => mret tt
  end.

End ProfileScreen.

(** ** The handlers of the repository that reach the store *)

Inductive Handler : Type → Type :=
| Messages_fetchConversations : Handler MessagesScreen.State
| Schedule_fetchMeetings : Handler ScheduleScreen.State
| Schedule_updateMeetingStatus (meetingId : string)
    (status : ScheduleScreen.NewStatus) : Handler ScheduleScreen.State
| Discover_fetchProfiles : Handler DiscoverScreen.State
| Discover_sendConnectionRequest (targetUserId : string)
    : Handler DiscoverScreen.State
| Connections_fetchConnections : Handler ConnectionsScreen.State
| Connections_handleConnectionResponse (connectionId : string)
    (status : ConnectionsScreen.Answer) : Handler ConnectionsScreen.State
| Profile_handleSave : Handler ProfileScreen.State
| Profile_updateStatus (status : UserProfile.Status) : Handler ProfileScreen.State.

Definition run_handler (store : Store) (user : option User) {S : Type}
    (h : Handler S) : M (World S) unit :=
  match h in Handler S return M (World S) unit with
  | Messages_fetchConversations => MessagesScreen.fetchConversations store user
  | Schedule_fetchMeetings => ScheduleScreen.fetchMeetings store user
  | Schedule_updateMeetingStatus meetingId status =>
      ScheduleScreen.updateMeetingStatus store user meetingId status
  | Discover_fetchProfiles => DiscoverScreen.fetchProfiles store user
  | Discover_sendConnectionRequest targetUserId =>
      DiscoverScreen.sendConnectionRequest store user targetUserId
  | Connections_fetchConnections => ConnectionsScreen.fetchConnections store user
  | Connections_handleConnectionResponse connectionId status =>
      ConnectionsScreen.handleConnectionResponse store user connectionId status
  | Profile_handleSave => ProfileScreen.handleSave store user
  | Profile_updateStatus status => ProfileScreen.updateStatus store user status
  end.

(** ** Notions in which the properties are stated *)

(** The partition of a counterparty: its messages, in input order. *)
Definition thread (user : User) (k : Id) (messages : list Message.t)
  : list Message.t :=
  filter (λ m, otherUserIdOf user m = k) messages.

(** The number of messages of [l] received by the user and not read. *)
Definition unread_in (user : User) (l : list Message.t) : nat :=
  length (filter (λ m, Message.receiver_id m = Some (user_id user)
                       ∧ Message.read m = false) l).

(** [m] is in [l], nothing in [l] is more recent, and everything in front
    of it is strictly older: [m] is the earliest of the most recent. *)
Definition earliest_latest (m : Message.t) (l : list Message.t) : Prop :=
  ∃ before after,
    l = before ++ m :: after
    ∧ Forall (λ x, Message.created_at x < Message.created_at m) before
    ∧ Forall (λ x, Message.created_at x ≤ Message.created_at m) after.

(** The profile that the first message of a thread brings along. *)
Definition first_profile (user : User) (l : list Message.t) : option UserProfile.t :=
  match l with
  | [] => None
  | first :: _ =>
      if decide (Message.sender_id first ≠ Some (user_id user))
      then Message.sender_profile first else None
  end.

(** What a [Conversation] object says about the thread [l]. *)
Record Summarises (user : User) (l : list Message.t) (c : Conversation) : Prop := {
  sum_profile : otherUserProfile c = first_profile user l;
  sum_last : ∃ m, lastMessage c = Some m ∧ earliest_latest m l;
  sum_unread : unreadCount c = unread_in user l
}.

(** The net effect of lines 86-94 on the object of the counterparty. *)
Definition update (user : User) (message : Message.t) (c : Conversation) : Conversation :=
  let c := if more_recent message c then set_lastMessage message c else c in
  if is_unread user message then incr_unreadCount c else c.

(** The state of the loop once [messages] have been seen. *)
Record Grouped (user : User) (messages : list Message.t) (st : Aggregation) : Prop := {
  grouped_map : ∀ k r,
    Map_get k (conversationMap st) = Some r
    ↔ (otherUserId <$> objects st) !! r = Some k;
  grouped_values : (conversationMap st).*2 = seq 0 (length (objects st));
  grouped_keys : NoDup (otherUserId <$> objects st);
  grouped_dom : ∀ k,
    k ∈ otherUserId <$> objects st ↔ k ∈ otherUserIdOf user <$> messages;
  grouped_sum :
    Forall (λ c, Summarises user (thread user (otherUserId c) messages) c)
           (objects st)
}.

(** The net effect of lines 97-111 on one object. *)
Definition resolve (profiles : option (list UserProfile.t)) (c : Conversation)
  : Conversation :=
  if lacks_profile c
  then set_otherUserProfile (find_profile profiles (otherUserId c)) c
  else c.

(** The references, counted from [a], of the objects of [l] on which [p]
    holds. *)
Fixpoint indices_where (p : Conversation → bool) (a : nat) (l : list Conversation)
  : list nat :=
  match l with
  | [] => []
  | c :: l' =>
      if p c then a :: indices_where p (S a) l' else indices_where p (S a) l'
  end.

(** The time value of the last message of a conversation that has one. *)
Definition last_time (c : Conversation) : Z :=
  match lastMessage c with
  | Some m => Message.created_at m
  | None => 0
  end.

(** The world that [fetchConversations] leaves behind [w]: the list is
    replaced by [convs] if there is one, [loading] is off, [rqs] were sent
    and [logged] was written to the console. *)
Definition world_after (w : World MessagesScreen.State)
    (convs : option (list Conversation)) (rqs : list Request)
    (logged : list (string * Exn)) : World MessagesScreen.State :=
  {| screen :=
       {| MessagesScreen.conversations :=
            default (MessagesScreen.conversations (screen w)) convs;
          MessagesScreen.loading := false |};
     requests := requests w ++ rqs;
     console := console w ++ logged;
     alerts := alerts w |}.

(** The ids that line 102 collects: the counterparties whose object has no
    profile after the loop. *)
Definition missing_ids (st : Aggregation) : list Id :=
  otherUserId <$> filter (λ c, lacks_profile c = true) (objects st).

(** The messages arrived: the loop has run on them (on nothing if [data]
    is [null]) and left [st]. *)
Definition fetched (store : Store) (user : User) (messages : list Message.t)
    (st : Aggregation) : Prop :=
  (∃ resp, messages_involving store (user_id user) = Resolved resp
           ∧ error resp = None
           ∧ messages = default [] (data resp))
  ∧ groupMessages user messages = Normal st
  ∧ Grouped user messages st.

(** ** Concrete inputs *)

Definition me : User := {| user_id := "me" |}.

Definition profile_of (id : string) : UserProfile.t :=
  UserProfile.mk id (id +:+ "@example.org") id "Doe" None None None None None
                 UserProfile.available None None None
                 "2024-01-01T00:00:00Z" "2024-01-01T00:00:00Z".

(** A message from [me] to [to]. The store embeds the profile of the
    sender, here that of [me]. *)
Definition sent (id to : string) (at_time : Z) : Message.t :=
  Message.mk id (Some "me") (Some to) "hello" true at_time (Some (profile_of "me")).

(** A message from [from] to [me], with the profile of [from] embedded. *)
Definition received (id from : string) (read : bool) (at_time : Z) : Message.t :=
  Message.mk id (Some from) (Some "me") "hello" read at_time (Some (profile_of from)).

(** A row with neither a sender nor a receiver id. *)
Definition anonymous : Message.t := Message.mk "m0" None None "?" false 7 None.

Definition no_answer {A : Type} : Awaited (Response A) :=
  Resolved {| data := None; error := None |}.

(** A store that answers the two queries of the messages screen as said. *)
Definition store_with (messages : Awaited (Response (list Message.t)))
    (profiles : Awaited (Response (list UserProfile.t))) : Store :=
  {| messages_involving := λ _, messages;
     profiles_with_id_in := λ _, profiles;
     profiles_except := λ _, no_answer;
     meetings_on := λ _ _, no_answer;
     connections_matching := λ _, no_answer;
     written := λ _, no_answer |}.

Definition rows {A : Type} (l : list A) : Awaited (Response (list A)) :=
  Resolved {| data := Some l; error := None |}.

Definition failed {A : Type} (why : string) : Awaited (Response A) :=
  Resolved {| data := None; error := Some why |}.

(** A messages screen that shows one earlier conversation. *)
Definition earlier : Conversation :=
  {| otherUserId := Some "Z"; otherUserProfile := Some (profile_of "Z");
     lastMessage := Some (received "m9" "Z" true 1); unreadCount := 0 |}.

Definition showing_earlier : World MessagesScreen.State :=
  {| screen := {| MessagesScreen.conversations := [earlier];
                  MessagesScreen.loading := false |};
     requests := []; console := []; alerts := [] |}.

(** A thread whose latest message was sent by [me], after one received
    from the counterparty. *)
Definition reply_then_wait : list Message.t :=
  [sent "m2" "A" 10; received "m1" "A" true 5].

(** A request that does not write a meeting status other than
    ['confirmed'] or ['cancelled']. *)
Definition allowed (rq : Request) : bool :=
  match rq with
  | update_meeting Meeting.confirmed _ | update_meeting Meeting.cancelled _ => true
  | update_meeting _ _ => false
  | _ => true
  end.

(** Whatever the world, the computation adds requests to those already
    sent, and the added ones are all [allowed]. *)
Definition adds_allowed {S A : Type} (m : M (World S) A) : Prop :=
  ∀ w, ∃ rqs, requests (m w).2 = requests w ++ rqs
              ∧ Forall (λ rq, allowed rq = true) rqs.

(** ** What the messages screen shows ([messages.tsx], lines 133-158 and
    197-203) *)

(** Lines 155-158. A string is the sequence of its code units;
    [maxLength] is a whole number, 50 where the caller leaves it out.
    [substring(0, maxLength)] takes nothing when [maxLength] is negative
    and all there is when it exceeds the length. *)
Definition truncateMessage (content : string) (maxLength : Z) : string :=
  if Z.of_nat (String.length content) <=? maxLength then content
  else String.substring 0 (Z.to_nat maxLength) content +:+ "...".

(** Lines 197-203: the badge on the avatar, if there is one, and its text;
    a number is rendered in decimal. *)
Definition unreadBadge (conversation : Conversation) : option string :=
  if (0 <? unreadCount conversation)%nat then
    Some (if (99 <? unreadCount conversation)%nat then "99+"
          else pretty (unreadCount conversation))
  else None.

(** The three renderings of a time that [formatMessageTime] asks of the
    platform: [toLocaleTimeString('en-US', { hour, minute, hour12 })],
    [toLocaleDateString('en-US', { weekday: 'short' })] and
    [toLocaleDateString('en-US', { month: 'short', day: 'numeric' })]. *)
Record Intl := {
  time_of_day : Z → string;
  weekday_short : Z → string;
  month_and_day : Z → string
}.

(** Lines 133-153; [now] is the time value of [new Date()], [dateString]
    that of the date it denotes. *)
Definition formatMessageTime (intl : Intl) (now : Z) (dateString : Z) : string :=
  let messageDate := dateString in
  let diffTime := now - messageDate in
  let diffDays := diffTime / (1000 * 60 * 60 * 24) in
  if diffDays =? 0 then time_of_day intl messageDate
  else if diffDays <? 7 then weekday_short intl messageDate
  else month_and_day intl messageDate.

(** ** The week strip of the schedule screen ([schedule.tsx], lines 83-95
    and 116-128) *)

Module ScheduleCalendar.

(** A [Date] holds a time value: the milliseconds since the epoch, in
    UTC, or [NaN] for an invalid date, which is [None] here. The methods
    of [Date] that the screen calls are those of the language definition:
    they read the date in local time and write it back through [UTC] and
    [TimeClip]. *)
Definition Date : Type := option Z.

Definition msPerDay : Z := 86400000.

Definition Day (t : Z) : Z := t / msPerDay.

Definition TimeWithinDay (t : Z) : Z := t mod msPerDay.

(** 0 for Sunday; day 0 was a Thursday. *)
Definition WeekDay (t : Z) : Z := (Day t + 4) mod 7.

(** What the platform knows of the calendar and of the time zone:
    [firstOfMonth] gives, for a day number, the day number of the first
    day of its month, which is all of the calendar that is needed;
    [LocalTZA t isUTC] is the offset of local time, in milliseconds, at
    the time [t], which is a UTC time when [isUTC] and a local time
    otherwise. *)
Record Locale := {
  firstOfMonth : Z → Z;
  LocalTZA : Z → bool → Z
}.

Definition LocalTime (locale : Locale) (t : Z) : Z := t + LocalTZA locale t true.

Definition UTC (locale : Locale) (t : Z) : Z := t - LocalTZA locale t false.

Definition TimeClip (time : Z) : Date :=
  if 8640000000000000 <? Z.abs time then None else Some time.

Definition DateFromTime (locale : Locale) (t : Z) : Z :=
  Day t - firstOfMonth locale (Day t) + 1.

(** [MakeDay(YearFromTime(t), MonthFromTime(t), dt)]: the day number of
    the day [dt] of the month of [t], also for a [dt] outside the month. *)
Definition MakeDay (locale : Locale) (t : Z) (dt : Z) : Z :=
  firstOfMonth locale (Day t) + dt - 1.

Definition MakeDate (day : Z) (time : Z) : Z := day * msPerDay + time.

(** [Date.prototype.getDay]. *)
Definition getDay (locale : Locale) (date : Date) : option Z :=
  t ← date; Some (WeekDay (LocalTime locale t)).

(** [Date.prototype.getDate]: the day of the month, from 1. *)
Definition getDate (locale : Locale) (date : Date) : option Z :=
  t ← date; Some (DateFromTime locale (LocalTime locale t)).

(** [Date.prototype.setDate]; the result is the date that the object
    holds afterwards. *)
Definition setDate (locale : Locale) (date : Date) (dt : option Z) : Date :=
  match date, dt with
  | Some t, Some dt =>
      let t := LocalTime locale t in
      let newDate := MakeDate (MakeDay locale t dt) (TimeWithinDay t) in
      TimeClip (UTC locale newDate)
  | _, _ => None
  end.

(** Lines 83-95; [now] is the reading of the clock that [new Date()]
    takes, and [new Date(date)] copies the time value of [date]. *)
Definition getWeekDays (locale : Locale) (now : Z) : list Date :=
  let today : Date := Some now in
  let startOfWeek :=
    setDate locale today
      (a ← getDate locale today; b ← getDay locale today; Some (a - b)) in
  (λ i, let day := startOfWeek in
        setDate locale day (a ← getDate locale startOfWeek; Some (a + i)))
    <$> [0; 1; 2; 3; 4; 5; 6].


(** The days of the week of [now] are settled when the local time of
    day of [now] exists on each of them (it is not in an hour that a
    change of offset skips) and is a time that a [Date] can hold. *)
Definition settled (locale : Locale) (now : Z) : Prop :=
  ∀ i, 0 ≤ i < 7 →
    let local :=
      LocalTime locale now
      + (i - WeekDay (LocalTime locale now)) * msPerDay in
    LocalTime locale (UTC locale local) = local
    ∧ Z.abs (UTC locale local) ≤ 8640000000000000.

(** The day of the month in the Gregorian calendar, for a day number. *)
Definition gregorian_date (day : Z) : Z :=
  let z := day + 719468 in
  let era := z / 146097 in
  let doe := z - era * 146097 in
  let yoe := (doe - doe / 1460 + doe / 36524 - doe / 146096) / 365 in
  let doy := doe - (365 * yoe + yoe / 4 - yoe / 100) in
  let mp := (5 * doy + 2) / 153 in
  doy - (153 * mp + 2) / 5 + 1.

(** A locale for examples: the Gregorian calendar, and the offsets of
    Europe/Paris around the change to summer time of 31 March 2024, when
    the local hour from 02:00 to 03:00 is skipped: one hour before
    01:00 UTC of that day and two hours from then on. A local time in
    the skipped hour is read with the offset before the change. *)
Definition paris_spring_2024 : Locale :=
  {| firstOfMonth := λ day, day - gregorian_date day + 1;
     LocalTZA := λ t isUTC,
       if isUTC then (if t <? 1711846800000 then 3600000 else 7200000)
       else (if t <? 1711846800000 + 7200000 then 3600000 else 7200000) |}.

(** Lines 120-128. *)
Definition getMeetingStatusColor (status : string) : string :=
  if decide (status = "confirmed") then "#10B981"
  else if decide (status = "pending") then "#F59E0B"
  else if decide (status = "cancelled") then "#EF4444"
  else if decide (status = "completed") then "#6B7280"
  else "#F59E0B".

(** The string that the store holds for a status of a meeting
    ([database.ts], line 38). *)
Definition status_text (status : Meeting.Status) : string :=
  match status with
  | Meeting.pending => "pending"
  | Meeting.confirmed => "confirmed"
  | Meeting.cancelled => "cancelled"
  | Meeting.completed => "completed"
  end.

End ScheduleCalendar.

(** ** Presence colours and texts ([index.tsx], lines 107-123, and
    [src/unnamed/part_000], lines 80-87) *)

Module Presence.

(** [index.tsx], lines 107-114. *)
Definition discover_getStatusColor (status : string) : string :=
  if decide (status = "available") then "#10B981"
  else if decide (status = "busy") then "#F59E0B"
  else if decide (status = "offline") then "#6B7280"
  else "#6B7280".

(** [index.tsx], lines 116-123. *)
Definition getStatusText (status : string) : string :=
  if decide (status = "available") then "Available"
  else if decide (status = "busy") then "Busy"
  else if decide (status = "offline") then "Offline"
  else "Unknown".

(** [src/unnamed/part_000], lines 80-87. *)
Definition profile_getStatusColor (status : string) : string :=
  if decide (status = "available") then "#10B981"
  else if decide (status = "busy") then "#F59E0B"
  else if decide (status = "offline") then "#6B7280"
  else "#6B7280".

(** The string that the store holds for a presence status
    ([database.ts], line 11). *)
Definition status_text (status : UserProfile.Status) : string :=
  match status with
  | UserProfile.available => "available"
  | UserProfile.busy => "busy"
  | UserProfile.offline => "offline"
  end.

End Presence.

(** ** The filter of the discover screen ([index.tsx], lines 64-85) *)

Module DiscoverFilter.

(** The string functions of the platform that the filter calls:
    [String.prototype.trim], [toLowerCase] and [includes]. *)
Record StringOps := {
  trim : string → string;
  toLowerCase : string → string;
  includes : string → string → bool
}.

(** [field?.toLowerCase().includes(query)]: [undefined], hence not a
    match, when the field is missing. *)
Definition field_includes (ops : StringOps) (field : option string)
    (query : string) : bool :=
  match field with
  | Some f => includes ops (toLowerCase ops f) query
  | None => false
  end.

(** Lines 70-76: the callback of the first [filter]. *)
Definition matches (ops : StringOps) (query : string) (profile : UserProfile.t)
  : bool :=
  includes ops (toLowerCase ops (UserProfile.first_name profile)) query
  || includes ops (toLowerCase ops (UserProfile.last_name profile)) query
  || field_includes ops (UserProfile.job_title profile) query
  || field_includes ops (UserProfile.company profile) query
  || field_includes ops (UserProfile.industry profile) query.

(** Lines 64-85: the list handed to [setFilteredProfiles], from the three
    cells that the function reads. *)
Definition filterProfiles (ops : StringOps) (profiles : list UserProfile.t)
    (searchQuery selectedIndustry : string) : list UserProfile.t :=
  let filtered := profiles in
  let filtered :=
    if decide (trim ops searchQuery ≠ "") then
      let query := toLowerCase ops searchQuery in
      List.filter (matches ops query) filtered
    else filtered in
  let filtered :=
    if decide (selectedIndustry ≠ "all") then
      List.filter (λ profile,
                     bool_decide (UserProfile.industry profile = Some selectedIndustry))
                  filtered
    else filtered in
  filtered.

End DiscoverFilter.

(** ** The cards of the connections screen ([connections.tsx], lines
    106-184 and 223-236) *)

Module ConnectionsRender.

(** A button of a card: its caption and its [onPress] handler, if any. *)
Record Touchable := {
  caption : string;
  onPress : option (M (World ConnectionsScreen.State) unit)
}.

(** A rendered card: the profile it shows and its buttons. *)
Record Card := {
  shown : UserProfile.t;
  actions : list Touchable
}.

(** Lines 107-108: the profile of the other party of a connection. *)
Definition otherProfile (user : option User) (connection : Connection.t)
  : option UserProfile.t :=
  let isRequester :=
    bool_decide (Some (Connection.requester_id connection) = user_id <$> user) in
  if isRequester then Connection.requested_profile connection
  else Connection.requester_profile connection.

(** Lines 106-175; [None] is the [null] of line 110. *)
Definition renderConnectionCard (store : Store) (user : option User)
    (connection : Connection.t) (showActions : bool) : option Card :=
  match otherProfile user connection with
  | None => None
  | Some profile =>
      Some {| shown := profile;
              actions :=
                if showActions then
                  [ {| caption := "Accept";
                       onPress := Some (ConnectionsScreen.handleConnectionResponse
                                          store user (Connection.id connection)
                                          ConnectionsScreen.accepted) |};
                    {| caption := "Decline";
                       onPress := Some (ConnectionsScreen.handleConnectionResponse
                                          store user (Connection.id connection)
                                          ConnectionsScreen.rejected) |} ]
                else
                  [ {| caption := "Message"; onPress := None |};
                    {| caption := "Meet"; onPress := None |} ] |}
  end.

(** Lines 177-184. *)
Definition getTabCount (s : ConnectionsScreen.State) (tab : string) : nat :=
  if decide (tab = "connections") then length (ConnectionsScreen.connections s)
  else if decide (tab = "pending") then length (ConnectionsScreen.pendingRequests s)
  else if decide (tab = "sent") then length (ConnectionsScreen.sentRequests s)
  else 0%nat.

(** Lines 223-236: what the tab of the connections holds, the cards (a
    [null] renders nothing) and whether the empty state is drawn. *)
Definition connectionsTab (store : Store) (user : option User)
    (s : ConnectionsScreen.State) : list Card * bool :=
  (omap (λ connection, renderConnectionCard store user connection false)
        (ConnectionsScreen.connections s),
   bool_decide (length (ConnectionsScreen.connections s) = 0%nat)).

(** Lines 238-251: the same for the requests received. *)
Definition pendingTab (store : Store) (user : option User)
    (s : ConnectionsScreen.State) : list Card * bool :=
  (omap (λ request, renderConnectionCard store user request true)
        (ConnectionsScreen.pendingRequests s),
   bool_decide (length (ConnectionsScreen.pendingRequests s) = 0%nat)).

(** A handler answers a request with a status when, from any state of
    the world, it ends normally, the first thing it sends to the store is
    the write of that status on the row of the request, and all that it
    sends after that are queries for connections. *)
Definition answers (status : ConnectionsScreen.Answer) (request : Connection.t)
    (handler : M (World ConnectionsScreen.State) unit) : Prop :=
  ∀ w, (handler w).1 = Normal tt
    ∧ ∃ rest,
        requests (handler w).2
        = requests w
            ++ update_connection (ConnectionsScreen.status_of status)
                                 (Connection.id request) :: rest
        ∧ Forall (λ rq, ∃ q, rq = select_connections q) rest.

End ConnectionsRender.

(** ** Notifications ([src/context/NotificationContext.tsx]) *)

Module NotificationContext.

(** The [status] of the permission answers of the notification library. *)
Inductive PermissionStatus := granted | denied | undetermined.

#[global] Instance PermissionStatus_eq_dec : EqDecision PermissionStatus.
Proof. solve_decision. Defined.

(** The calls made to the notification library. *)
Inductive Call :=
| getPermissionsAsync
| requestPermissionsAsync
| getExpoPushTokenAsync
| setNotificationChannelAsync (name : string).

(** The device: [Platform.OS], and what the library answers. *)
Record Device := {
  OS : string;
  existing_permission : Awaited PermissionStatus;
  requested_permission : Awaited PermissionStatus;
  push_token : Awaited string
}.

(** The calls made so far, the texts shown by [alert] and the cell
    [expoPushToken] of the provider, which these functions leave alone. *)
Record World := {
  calls : list Call;
  alerted : list string;
  expoPushToken : option string
}.

(** [await Notifications.f(..)]. *)
Definition call {A} (c : Call) (answer : Awaited A) : M World A := λ w,
  let w' := {| calls := calls w ++ [c]; alerted := alerted w;
               expoPushToken := expoPushToken w |} in
  match answer with
  | Resolved a => (Normal a, w')
  | Rejected e => (Throw e, w')
  end.

(** A call whose promise is left alone. *)
Definition call_detached (c : Call) : M World unit := λ w,
  (Normal tt, {| calls := calls w ++ [c]; alerted := alerted w;
                 expoPushToken := expoPushToken w |}).

Definition alert (message : string) : M World unit := λ w,
  (Normal tt, {| calls := calls w; alerted := alerted w ++ [message];
                 expoPushToken := expoPushToken w |}).

(** Lines 35-41 and 93-99: the status at hand, asked for anew unless it
    is ['granted']. *)
Definition finalStatus (device : Device) : M World PermissionStatus :=
  existingStatus ← call getPermissionsAsync (existing_permission device);
  if decide (existingStatus ≠ granted) then
    call requestPermissionsAsync (requested_permission device)
  else mret existingStatus.

(** Lines 32-44. *)
Definition requestPermissions (device : Device) : M World bool :=
  if decide (OS device = "web") then mret true
  else
    finalStatus ← finalStatus device;
    mret (bool_decide (finalStatus = granted)).

(** Lines 88-118; [None] is [null]. *)
Definition registerForPushNotificationsAsync (device : Device)
  : M World (option string) :=
  if decide (OS device = "web") then mret None
  else
    finalStatus ← finalStatus device;
    if decide (finalStatus ≠ granted) then
      alert "Failed to get push token for push notification!";;
      mret None
    else
      token ← call getExpoPushTokenAsync (push_token device);
      (if decide (OS device = "android")
       then call_detached (setNotificationChannelAsync "default")
       else mret tt);;
      mret (Some token).

(** The permission is there after [finalStatus]: it was there before, or
    it was asked for and given. *)
Definition permission_granted (device : Device) : Prop :=
  existing_permission device = Resolved granted
  ∨ (∃ s, existing_permission device = Resolved s ∧ s ≠ granted)
    ∧ requested_permission device = Resolved granted.

End NotificationContext.

(** ** Answers of the store *)

(** The call resolved and its answer carries no [error]. *)
Definition succeeded {A : Type} (a : Awaited (Response A)) : bool :=
  match a with
  | Resolved r => match error r with None => true | Some _ => false end
  | Rejected _ => false
  end.

(** [data || []] of an answer. *)
Definition rows_of {A : Type} (a : Awaited (Response (list A))) : list A :=
  match a with
  | Resolved r => default [] (data r)
  | Rejected _ => []
  end.

(** The ids of a list, each where it is first seen. *)
Fixpoint first_seen (l : list Id) : list Id :=
  match l with
  | [] => []
  | k :: l' => k :: filter (λ k', k' ≠ k) (first_seen l')
  end.

(** The state of the loop on messages seen newest first. *)
Record Newest_first (user : User) (messages : list Message.t)
    (st : Aggregation) : Prop := {
  nf_order : otherUserId <$> objects st
             = first_seen (otherUserIdOf user <$> messages);
  nf_sorted : StronglySorted (λ a b, last_time b ≤ last_time a) (objects st);
  nf_head : Forall (λ c, ∃ m, lastMessage c = Some m
                              ∧ head (thread user (otherUserId c) messages) = Some m
                              ∧ m ∈ messages)
                   (objects st)
}.

(** ** More concrete inputs *)

(** Two stores that give the same messages and the same rows of profiles
    (none), the first with an [error] in the answer of the lookup. *)
Definition store_lookup_failed : Store :=
  store_with (rows [sent "m1" "A" 3]) (failed "network").

Definition store_lookup_empty : Store :=
  store_with (rows [sent "m1" "A" 3]) no_answer.

(** ** The [Map] *)

Lemma Map_set_fresh k r (m : list (Id * nat)) :
  Map_get k m = None → Map_set k r m = m ++ [(k, r)].
Proof.
  induction m as [|[k' r'] m IH]; simpl; [done|].
  case_decide; [done|]. intros Hm. by rewrite IH.
Qed.

Lemma Map_get_app k (m1 m2 : list (Id * nat)) :
  Map_get k (m1 ++ m2) =
  match Map_get k m1 with Some r => Some r | None => Map_get k m2 end.
Proof.
  induction m1 as [|[k' r'] m1 IH]; simpl; [done|]. by case_decide.
Qed.

(** ** One step of the loop *)

Lemma deref_Some heap r c : heap !! r = Some c → deref heap r = Normal c.
Proof. unfold deref. by intros ->. Qed.

Lemma assign_Some f r st c :
  objects st !! r = Some c →
  assign f r st = Normal {| objects := <[r := f c]> (objects st);
                            conversationMap := conversationMap st |}.
Proof. unfold assign. intros H. by rewrite (deref_Some _ _ _ H). Qed.

Lemma more_recent_new user m : more_recent m (newConversation user m) = false.
Proof. unfold more_recent; simpl. apply Z.ltb_irrefl. Qed.

Lemma groupStep_existing user st m r c :
  Map_get (otherUserIdOf user m) (conversationMap st) = Some r →
  objects st !! r = Some c →
  groupStep user st m =
  Normal {| objects := <[r := update user m c]> (objects st);
            conversationMap := conversationMap st |}.
Proof.
  intros Hget Hc. unfold groupStep, Map_has, update. rewrite Hget. simpl.
  rewrite Hget, (deref_Some _ _ _ Hc). simpl.
  assert (Hlt : (r < length (objects st))%nat) by (eapply lookup_lt_Some; eauto).
  destruct (more_recent m c), (is_unread user m); simpl.
  - rewrite (assign_Some _ _ _ c Hc). simpl.
    erewrite assign_Some; simpl; [|by apply list_lookup_insert_eq].
    by rewrite list_insert_insert_eq.
  - by rewrite (assign_Some _ _ _ c Hc).
  - by rewrite (assign_Some _ _ _ c Hc).
  - destruct st; simpl in *. by rewrite list_insert_id.
Qed.

Lemma groupStep_fresh user st m :
  Map_get (otherUserIdOf user m) (conversationMap st) = None →
  groupStep user st m =
  Normal {| objects := objects st ++ [update user m (newConversation user m)];
            conversationMap :=
              conversationMap st ++ [(otherUserIdOf user m, length (objects st))] |}.
Proof.
  intros Hget. unfold groupStep, Map_has, update. rewrite Hget. simpl.
  rewrite (Map_set_fresh _ _ _ Hget), Map_get_app, Hget. simpl.
  case_decide; [|done].
  assert (Hnew : (objects st ++ [newConversation user m]) !! length (objects st)
                 = Some (newConversation user m)) by apply list_lookup_middle, eq_refl.
  rewrite (deref_Some _ _ _ Hnew). simpl. rewrite !more_recent_new. simpl.
  destruct (is_unread user m); simpl; [|done].
  erewrite assign_Some; simpl; [|exact Hnew].
  rewrite insert_app_r_alt by lia. by rewrite Nat.sub_diag.
Qed.

(** ** What one message does to the summary of its thread *)

Lemma is_unread_spec user m :
  is_unread user m = true
  ↔ Message.receiver_id m = Some (user_id user) ∧ Message.read m = false.
Proof.
  unfold is_unread. rewrite andb_true_iff, bool_decide_eq_true, negb_true_iff.
  done.
Qed.

Lemma thread_snoc user k pre m :
  thread user k (pre ++ [m]) =
  thread user k pre ++ (if decide (otherUserIdOf user m = k) then [m] else []).
Proof.
  unfold thread. by rewrite filter_app.
Qed.

Lemma thread_nil user k messages :
  k ∉ otherUserIdOf user <$> messages → thread user k messages = [].
Proof.
  intros Hk. unfold thread. induction messages as [|m l IH]; [done|].
  rewrite fmap_cons, not_elem_of_cons in Hk. destruct Hk as [Hne Hk].
  rewrite filter_cons_False by congruence. auto.
Qed.

Lemma unread_in_snoc user l m :
  unread_in user (l ++ [m]) =
  (unread_in user l + (if is_unread user m then 1 else 0))%nat.
Proof.
  unfold unread_in. rewrite filter_app, length_app. f_equal.
  rewrite filter_cons, filter_nil.
  destruct (is_unread user m) eqn:Hu.
  - apply is_unread_spec in Hu. by rewrite decide_True.
  - rewrite decide_False; [done|]. intros Hp. apply is_unread_spec in Hp. congruence.
Qed.

Lemma otherUserId_update user m c : otherUserId (update user m c) = otherUserId c.
Proof. unfold update. by destruct (more_recent m c), (is_unread user m). Qed.

Lemma otherUserProfile_update user m c :
  otherUserProfile (update user m c) = otherUserProfile c.
Proof. unfold update. by destruct (more_recent m c), (is_unread user m). Qed.

Lemma unreadCount_update user m c :
  unreadCount (update user m c) =
  (unreadCount c + (if is_unread user m then 1 else 0))%nat.
Proof.
  unfold update. destruct (more_recent m c), (is_unread user m); simpl; lia.
Qed.

Lemma lastMessage_update user m c :
  lastMessage (update user m c) =
  if more_recent m c then Some m else lastMessage c.
Proof. unfold update. by destruct (more_recent m c), (is_unread user m). Qed.

Lemma earliest_latest_snoc m last l :
  earliest_latest last l →
  earliest_latest
    (if Message.created_at last <? Message.created_at m then m else last)
    (l ++ [m]).
Proof.
  intros (before & after & -> & Hb & Ha).
  destruct (Z.ltb_spec (Message.created_at last) (Message.created_at m)) as [Hlt|Hge].
  - exists (before ++ last :: after), []. split; [done|]. split; [|constructor].
    apply Forall_app. split; [|constructor; [done|]].
    + eapply Forall_impl; [exact Hb|]. simpl. intros; lia.
    + eapply Forall_impl; [exact Ha|]. simpl. intros; lia.
  - exists before, (after ++ [m]). split; [by rewrite <- app_assoc|]. split; [done|].
    apply Forall_app. split; [done|]. by constructor.
Qed.

Lemma Summarises_snoc user l m c :
  Summarises user l c → Summarises user (l ++ [m]) (update user m c).
Proof.
  intros [Hp (last & Hl & Hel) Hu]. split.
  - rewrite otherUserProfile_update, Hp.
    destruct Hel as (before & after & -> & _). by destruct before.
  - rewrite lastMessage_update. unfold more_recent. rewrite Hl.
    exists (if Message.created_at last <? Message.created_at m then m else last).
    split; [by destruct (_ <? _)|]. by apply earliest_latest_snoc.
  - by rewrite unreadCount_update, Hu, unread_in_snoc.
Qed.

Lemma Summarises_new user m :
  Summarises user [m] (update user m (newConversation user m)).
Proof.
  split.
  - by rewrite otherUserProfile_update.
  - rewrite lastMessage_update, more_recent_new. exists m. split; [done|].
    by exists [], [].
  - rewrite unreadCount_update. simpl. change [m] with ([] ++ [m]).
    by rewrite unread_in_snoc.
Qed.

(** ** The invariant of the loop *)

Lemma Grouped_empty user : Grouped user [] empty_Aggregation.
Proof.
  split; simpl; try done; constructor.
Qed.

Lemma Grouped_existing user pre st m r c :
  Grouped user pre st →
  Map_get (otherUserIdOf user m) (conversationMap st) = Some r →
  objects st !! r = Some c →
  Grouped user (pre ++ [m])
    {| objects := <[r := update user m c]> (objects st);
       conversationMap := conversationMap st |}.
Proof.
  intros [Hmap Hval Hnd Hdom Hsum] Hget Hc.
  assert (Hk : otherUserId c = otherUserIdOf user m).
  { apply Hmap in Hget. rewrite list_lookup_fmap, Hc in Hget. by injection Hget. }
  assert (Hkeys : otherUserId <$> <[r := update user m c]> (objects st)
                  = otherUserId <$> objects st).
  { rewrite list_fmap_insert, otherUserId_update. apply list_insert_id.
    by rewrite list_lookup_fmap, Hc. }
  split; simpl; rewrite ?Hkeys, ?length_insert; try done.
  - intros k. rewrite Hdom, fmap_app, elem_of_app. simpl.
    rewrite list_elem_of_singleton. split; [by left|].
    intros [Hin| ->]; [done|]. apply Hdom. rewrite <- Hk.
    apply list_elem_of_fmap. exists c. split; [done|].
    by eapply list_elem_of_lookup_2.
  - apply Forall_lookup. intros i c' Hi.
    destruct (decide (i = r)) as [->|Hne].
    + rewrite list_lookup_insert_eq in Hi by (by eapply lookup_lt_Some).
      injection Hi as <-. rewrite otherUserId_update, thread_snoc, Hk.
      rewrite decide_True by done. apply Summarises_snoc. rewrite <- Hk.
      eapply (proj1 (Forall_lookup _ _) Hsum); eauto.
    + rewrite list_lookup_insert_ne in Hi by done.
      rewrite thread_snoc, decide_False, app_nil_r.
      { eapply (proj1 (Forall_lookup _ _) Hsum); eauto. }
      intros Heq. apply Hne. eapply NoDup_lookup; [exact Hnd| |].
      * by rewrite list_lookup_fmap, Hi.
      * rewrite list_lookup_fmap, Hc. simpl. congruence.
Qed.

Lemma Grouped_fresh user pre st m :
  Grouped user pre st →
  Map_get (otherUserIdOf user m) (conversationMap st) = None →
  Grouped user (pre ++ [m])
    {| objects := objects st ++ [update user m (newConversation user m)];
       conversationMap :=
         conversationMap st ++ [(otherUserIdOf user m, length (objects st))] |}.
Proof.
  intros [Hmap Hval Hnd Hdom Hsum] Hget.
  set (k := otherUserIdOf user m) in *.
  assert (Hfresh : k ∉ otherUserId <$> objects st).
  { intros Hin. apply list_elem_of_lookup in Hin as [r Hr].
    apply Hmap in Hr. congruence. }
  assert (Hkeys : otherUserId <$> objects st ++ [update user m (newConversation user m)]
                  = (otherUserId <$> objects st) ++ [k]).
  { by rewrite fmap_app, (list_fmap_singleton otherUserId), otherUserId_update. }
  split; simpl; rewrite ?Hkeys.
  - intros k' r. rewrite Map_get_app. simpl.
    destruct (Map_get k' (conversationMap st)) as [r'|] eqn:Hg.
    + apply Hmap in Hg. split.
      * intros [= <-]. by apply lookup_app_l_Some.
      * intros Hr. apply lookup_app_Some in Hr as [Hr|[_ Hr]].
        -- f_equal. eapply NoDup_lookup; eauto.
        -- apply list_lookup_singleton_Some in Hr as [_ <-].
           exfalso. apply Hfresh. by eapply list_elem_of_lookup_2.
    + case_decide as Hkk.
      * subst k'. split.
        -- intros [= <-]. rewrite lookup_app_r, length_fmap, Nat.sub_diag; [done|].
           by rewrite length_fmap.
        -- intros Hr. apply lookup_app_Some in Hr as [Hr|[Hlen Hr]].
           ++ exfalso. apply Hfresh. by eapply list_elem_of_lookup_2.
           ++ apply list_lookup_singleton_Some in Hr as [Hr _].
              rewrite length_fmap in Hlen, Hr. f_equal. lia.
      * split; [done|]. intros Hr. apply lookup_app_Some in Hr as [Hr|[_ Hr]].
        -- apply Hmap in Hr. congruence.
        -- apply list_lookup_singleton_Some in Hr as [_ Hr]. congruence.
  - by rewrite fmap_app, Hval, length_app, seq_app.
  - apply NoDup_app. split; [done|]. split; [|apply NoDup_singleton].
    intros x Hx Hxk. apply list_elem_of_singleton in Hxk. by subst x.
  - intros k'. rewrite fmap_app, !elem_of_app, Hdom. simpl.
    by rewrite !list_elem_of_singleton.
  - apply Forall_app. split.
    + apply Forall_lookup. intros i c Hi.
      rewrite thread_snoc, decide_False, app_nil_r.
      { eapply (proj1 (Forall_lookup _ _) Hsum); eauto. }
      fold k. intros Heq. apply Hfresh. rewrite Heq.
      apply list_elem_of_fmap. exists c. split; [done|].
      by eapply list_elem_of_lookup_2.
    + constructor; [|constructor].
      rewrite otherUserId_update. simpl. fold k.
      rewrite thread_snoc, decide_True by done.
      rewrite thread_nil; [apply Summarises_new|]. by rewrite <- Hdom.
Qed.

Lemma Grouped_step user pre st m :
  Grouped user pre st →
  ∃ st', groupStep user st m = Normal st' ∧ Grouped user (pre ++ [m]) st'.
Proof.
  intros HG.
  destruct (Map_get (otherUserIdOf user m) (conversationMap st)) as [r|] eqn:Hget.
  - assert (∃ c, objects st !! r = Some c) as [c Hc].
    { apply (grouped_map _ _ _ HG) in Hget. rewrite list_lookup_fmap in Hget.
      destruct (objects st !! r); [eauto|done]. }
    eexists. split; [by eapply groupStep_existing|].
    by apply Grouped_existing.
  - eexists. split; [by apply groupStep_fresh|]. by apply Grouped_fresh.
Qed.

Lemma Grouped_forEach user l : ∀ pre st,
  Grouped user pre st →
  ∃ st', forEach (groupStep user) l st = Normal st' ∧ Grouped user (pre ++ l) st'.
Proof.
  induction l as [|m l IH]; intros pre st HG; simpl.
  - exists st. by rewrite app_nil_r.
  - destruct (Grouped_step user pre st m HG) as (st1 & -> & HG1). simpl.
    destruct (IH _ _ HG1) as (st' & Hrun & HG'). exists st'.
    split; [done|]. by rewrite <- app_assoc in HG'.
Qed.

(** The loop never throws, and leaves the invariant. *)
Lemma groupMessages_Grouped user messages :
  ∃ st, groupMessages user messages = Normal st ∧ Grouped user messages st.
Proof. apply (Grouped_forEach user messages [] _ (Grouped_empty user)). Qed.

(** ** Arrays of objects read through the object table *)

Lemma Array_filter_seq p l : ∀ pre,
  Array_filter p (pre ++ l) (seq (length pre) (length l))
  = Normal (indices_where p (length pre) l).
Proof.
  induction l as [|c l IH]; intros pre; simpl; [done|].
  rewrite (deref_Some _ _ c) by (by apply list_lookup_middle). simpl.
  specialize (IH (pre ++ [c])). rewrite <- app_assoc, length_app in IH.
  simpl in IH. rewrite Nat.add_1_r in IH. by rewrite IH.
Qed.

Lemma mapM_deref_seq l : ∀ pre,
  mapM (deref (pre ++ l)) (seq (length pre) (length l)) = Normal l.
Proof.
  induction l as [|c l IH]; intros pre; simpl; [done|].
  rewrite (deref_Some _ _ c) by (by apply list_lookup_middle). simpl.
  specialize (IH (pre ++ [c])). rewrite <- app_assoc, length_app in IH.
  simpl in IH. rewrite Nat.add_1_r in IH. by rewrite IH.
Qed.

Lemma userIdsOf_indices p l : ∀ pre cm,
  userIdsOf {| objects := pre ++ l; conversationMap := cm |}
            (indices_where p (length pre) l)
  = Normal (otherUserId <$> filter (λ c, p c = true) l).
Proof.
  unfold userIdsOf. simpl.
  induction l as [|c l IH]; intros pre cm; simpl; [done|].
  specialize (IH (pre ++ [c]) cm). rewrite <- app_assoc, length_app in IH.
  simpl in IH. rewrite Nat.add_1_r in IH.
  rewrite filter_cons. destruct (p c) eqn:Hp.
  - rewrite decide_True by done. simpl.
    rewrite (deref_Some _ _ c) by (by apply list_lookup_middle). simpl.
    by rewrite IH.
  - rewrite decide_False by congruence. done.
Qed.

Lemma attachProfiles_indices profiles l : ∀ pre cm,
  attachProfiles profiles (indices_where lacks_profile (length pre) l)
                 {| objects := pre ++ l; conversationMap := cm |}
  = Normal {| objects := pre ++ (resolve profiles <$> l); conversationMap := cm |}.
Proof.
  unfold attachProfiles.
  induction l as [|c l IH]; intros pre cm; simpl; [done|].
  pose proof (IH (pre ++ [resolve profiles c]) cm) as IH'.
  rewrite <- !app_assoc, length_app in IH'. simpl in IH'.
  rewrite Nat.add_1_r in IH'.
  unfold resolve at 2. unfold resolve at 1 in IH'.
  destruct (lacks_profile c) eqn:Hp; simpl.
  - rewrite (deref_Some _ _ c) by (by apply list_lookup_middle). simpl.
    erewrite assign_Some; simpl; [|by apply list_lookup_middle].
    rewrite insert_app_r_alt, Nat.sub_diag by lia. simpl. exact IH'.
  - exact IH'.
Qed.

(** ** The sort *)

Section Sort.
Context {A : Type} (comparefn : A → A → Z).

Lemma sort_insert_Permutation x l : sort_insert comparefn x l ≡ₚ x :: l.
Proof.
  induction l as [|y l IH]; simpl; [done|].
  destruct (comparefn x y <=? 0); [done|].
  rewrite IH. apply Permutation_swap.
Qed.

Lemma Array_sort_Permutation l : Array_sort comparefn l ≡ₚ l.
Proof.
  induction l as [|x l IH]; simpl; [done|].
  by rewrite sort_insert_Permutation, IH.
Qed.

(** Where the comparator is the difference of a key, the result is in
    non-increasing order of the key. *)
Context (key : A → Z).

Lemma sort_insert_sorted x l :
  (∀ y, y ∈ l → comparefn x y = key y - key x) →
  StronglySorted (λ a b, key b ≤ key a) l →
  StronglySorted (λ a b, key b ≤ key a) (sort_insert comparefn x l).
Proof.
  induction l as [|y l IH]; intros Hcmp Hs; simpl.
  - by repeat constructor.
  - apply StronglySorted_cons in Hs as [Hy Hs].
    pose proof (Hcmp y (list_elem_of_here _ _)) as Hxy.
    destruct (Z.leb_spec (comparefn x y) 0) as [Hle|Hgt].
    + apply StronglySorted_cons. split; [|by apply StronglySorted_cons].
      constructor; [lia|]. eapply Forall_impl; [exact Hy|]. simpl. intros; lia.
    + apply StronglySorted_cons. split.
      * rewrite sort_insert_Permutation. constructor; [lia|done].
      * apply IH; [|done]. intros z Hz. apply Hcmp. by right.
Qed.

Lemma Array_sort_sorted l :
  (∀ x y, x ∈ l → y ∈ l → comparefn x y = key y - key x) →
  StronglySorted (λ a b, key b ≤ key a) (Array_sort comparefn l).
Proof.
  induction l as [|x l IH]; intros Hcmp; simpl; [constructor|].
  apply sort_insert_sorted.
  - intros y Hy. rewrite Array_sort_Permutation in Hy.
    apply Hcmp; [by left|by right].
  - apply IH. intros a b Ha Hb. apply Hcmp; by right.
Qed.

End Sort.

Lemma StronglySorted_lookup {A} (R : A → A → Prop) l i j a b :
  StronglySorted R l → (i < j)%nat → l !! i = Some a → l !! j = Some b → R a b.
Proof.
  intros Hs. revert i j. induction Hs as [|x l Hs IH Hx]; intros i j Hij Hi Hj.
  - done.
  - destruct j as [|j]; [lia|]. simpl in Hj. destruct i as [|i]; simpl in Hi.
    + injection Hi as <-. eapply (proj1 (Forall_forall _ _) Hx).
      by eapply list_elem_of_lookup_2.
    + eapply (IH i j); [lia|done..].
Qed.

Lemma compareConversations_last_time a b :
  is_Some (lastMessage a) → is_Some (lastMessage b) →
  compareConversations a b = last_time b - last_time a.
Proof.
  intros [la Ha] [lb Hb]. unfold compareConversations, last_time.
  by rewrite Ha, Hb.
Qed.

(** ** What the lookup step leaves untouched *)

Lemma otherUserId_resolve profiles c : otherUserId (resolve profiles c) = otherUserId c.
Proof. unfold resolve. by destruct (lacks_profile c). Qed.

Lemma lastMessage_resolve profiles c : lastMessage (resolve profiles c) = lastMessage c.
Proof. unfold resolve. by destruct (lacks_profile c). Qed.

Lemma unreadCount_resolve profiles c : unreadCount (resolve profiles c) = unreadCount c.
Proof. unfold resolve. by destruct (lacks_profile c). Qed.

(** ** Lines 70-117 as a whole *)

Lemma after_group user messages profiles st :
  Grouped user messages st →
  conversationsWithoutProfiles st
  = Normal (indices_where lacks_profile 0 (objects st))
  ∧ (without ← conversationsWithoutProfiles st;
     st ← (if (0 <? length without)%nat
           then attachProfiles profiles without st
           else mret st);
     conversationList st)
    = Normal (Array_sort compareConversations (resolve profiles <$> objects st)).
Proof.
  intros HG. destruct st as [objs cm]. simpl.
  pose proof (grouped_values _ _ _ HG) as Hval. simpl in Hval.
  assert (Hw : conversationsWithoutProfiles {| objects := objs; conversationMap := cm |}
               = Normal (indices_where lacks_profile 0 objs)).
  { unfold conversationsWithoutProfiles, Array_from_values, Map_values. simpl.
    rewrite Hval. apply (Array_filter_seq lacks_profile objs []). }
  split; [done|]. rewrite Hw. simpl.
  pose proof (attachProfiles_indices profiles objs [] cm) as Hat. simpl in Hat.
  assert (Hst : (if (0 <? length (indices_where lacks_profile 0 objs))%nat
                 then attachProfiles profiles (indices_where lacks_profile 0 objs)
                        {| objects := objs; conversationMap := cm |}
                 else mret {| objects := objs; conversationMap := cm |})
                = Normal {| objects := resolve profiles <$> objs;
                            conversationMap := cm |}).
  { destruct (indices_where lacks_profile 0 objs) eqn:Hi; simpl; [|done].
    unfold attachProfiles in Hat. simpl in Hat. done. }
  rewrite Hst. simpl. unfold conversationList, Array_from_values, Map_values. simpl.
  rewrite Hval, <- (length_fmap (resolve profiles)).
  pose proof (mapM_deref_seq (resolve profiles <$> objs) []) as Hread.
  simpl in Hread. by rewrite Hread.
Qed.

Lemma aggregate_Grouped user messages profiles :
  ∃ st, groupMessages user messages = Normal st
        ∧ Grouped user messages st
        ∧ aggregate user messages profiles
          = Normal (Array_sort compareConversations (resolve profiles <$> objects st)).
Proof.
  destruct (groupMessages_Grouped user messages) as (st & Hrun & HG).
  exists st. split; [done|]. split; [done|].
  unfold aggregate. rewrite Hrun. simpl.
  apply (after_group user messages profiles st HG).
Qed.

(** Every conversation handed to [setConversations] summarises the thread
    of its counterparty, and the counterparties are those of the input,
    each once. *)
Lemma aggregate_summaries user messages profiles :
  ∃ out, aggregate user messages profiles = Normal out
         ∧ NoDup (otherUserId <$> out)
         ∧ (∀ k, k ∈ otherUserId <$> out ↔ k ∈ otherUserIdOf user <$> messages)
         ∧ (∀ c, c ∈ out →
              (∃ m, lastMessage c = Some m
                    ∧ earliest_latest m (thread user (otherUserId c) messages))
              ∧ unreadCount c
                = unread_in user (thread user (otherUserId c) messages)).
Proof.
  destruct (aggregate_Grouped user messages profiles) as (st & _ & HG & Hagg).
  eexists. split; [exact Hagg|].
  assert (Hkeys : otherUserId <$> Array_sort compareConversations
                                    (resolve profiles <$> objects st)
                  ≡ₚ otherUserId <$> objects st).
  { rewrite Array_sort_Permutation, <- list_fmap_compose.
    erewrite list_fmap_ext; [done|]. intros i c _. apply otherUserId_resolve. }
  split; [|split].
  - rewrite Hkeys. apply (grouped_keys _ _ _ HG).
  - intros k. rewrite Hkeys. apply (grouped_dom _ _ _ HG).
  - intros c Hc. rewrite Array_sort_Permutation in Hc.
    apply list_elem_of_fmap in Hc as (c0 & -> & Hc0).
    rewrite otherUserId_resolve, lastMessage_resolve, unreadCount_resolve.
    pose proof (proj1 (Forall_forall _ _) (grouped_sum _ _ _ HG) c0 Hc0) as [_ Hl Hu].
    done.
Qed.

(** ** Runs of [fetchConversations] *)

Ltac run_M :=
  unfold MessagesScreen.fetchConversations, try_catch_finally, try_catch,
    MessagesScreen.setLoading, MessagesScreen.setConversations, setState,
    console_error, await, lift, throw, world_after;
  unfold mbind, M_bind, mret, M_ret; simpl.

Lemma length_indices_where p l : ∀ a,
  length (indices_where p a l) = length (filter (λ c, p c = true) l).
Proof.
  induction l as [|c l IH]; intros a; simpl; [done|].
  rewrite filter_cons. destruct (p c) eqn:Hp.
  - rewrite decide_True by done. simpl. by rewrite IH.
  - rewrite decide_False by congruence. apply IH.
Qed.

(** No object lacks a profile: the lookup step changes nothing. *)
Lemma resolve_complete profiles l : ∀ a,
  indices_where lacks_profile a l = [] → resolve profiles <$> l = l.
Proof.
  induction l as [|c l IH]; intros a Hnil; [done|]. simpl in Hnil.
  rewrite fmap_cons. unfold resolve at 1. destruct (lacks_profile c); [done|].
  f_equal. by apply (IH (S a)).
Qed.

Lemma fetchConversations_signed_out store w :
  MessagesScreen.fetchConversations store None w = (Normal tt, w).
Proof. done. Qed.

Lemma fetchConversations_rejected store user w e :
  messages_involving store (user_id user) = Rejected e →
  MessagesScreen.fetchConversations store (Some user) w
  = (Normal tt,
     world_after w None [select_messages (user_id user)]
                 [("Error fetching conversations:", e)]).
Proof. intros Hq. run_M. by rewrite Hq. Qed.

Lemma fetchConversations_error store user w resp e :
  messages_involving store (user_id user) = Resolved resp →
  error resp = Some e →
  MessagesScreen.fetchConversations store (Some user) w
  = (Normal tt,
     world_after w None [select_messages (user_id user)]
                 [("Error fetching conversations:", StoreError e)]).
Proof. intros Hq He. run_M. by rewrite Hq, He. Qed.

Lemma fetched_intro store user resp :
  messages_involving store (user_id user) = Resolved resp →
  error resp = None →
  ∃ st, fetched store user (default [] (data resp)) st.
Proof.
  intros Hq He.
  destruct (groupMessages_Grouped user (default [] (data resp))) as (st & Hrun & HG).
  exists st. split; [|done]. by exists resp.
Qed.

Lemma fetched_group store user messages st resp :
  fetched store user messages st →
  messages_involving store (user_id user) = Resolved resp →
  match data resp with
  | Some messages => groupMessages user messages
  | None => mret empty_Aggregation
  end = Normal st.
Proof.
  intros [(resp' & Hq & _ & ->) [Hrun _]] Hq'. rewrite Hq in Hq'.
  injection Hq' as <-. by destruct (data resp').
Qed.

Lemma fetchConversations_complete store user w messages st :
  fetched store user messages st →
  missing_ids st = [] →
  MessagesScreen.fetchConversations store (Some user) w
  = (Normal tt,
     world_after w (Some (Array_sort compareConversations (objects st)))
                 [select_messages (user_id user)] []).
Proof.
  intros Hf Hnone. pose proof Hf as [(resp & Hq & He & Hm) [Hrun HG]].
  pose proof (fetched_group _ _ _ _ _ Hf Hq) as Hgroup. unfold mret in Hgroup.
  destruct (after_group user messages None st HG) as [Hw Hrest].
  assert (Hnil : indices_where lacks_profile 0 (objects st) = []).
  { apply length_zero_iff_nil. rewrite length_indices_where.
    unfold missing_ids in Hnone. apply fmap_nil_inv in Hnone. by rewrite Hnone. }
  rewrite Hw in Hrest. simpl in Hrest. rewrite Hnil in Hrest. simpl in Hrest.
  run_M. rewrite Hq. simpl. rewrite He, Hgroup. simpl. rewrite Hw, Hnil. simpl.
  unfold mbind in Hrest. destruct (conversationList st) as [l|] eqn:Hl; [|done].
  simpl in Hrest. injection Hrest as ->.
  rewrite app_nil_r. by rewrite (resolve_complete None _ _ Hnil).
Qed.

Lemma conversationList_values st :
  (conversationMap st).*2 = seq 0 (length (objects st)) →
  conversationList st = Normal (Array_sort compareConversations (objects st)).
Proof.
  intros Hval. unfold conversationList, Array_from_values, Map_values.
  rewrite Hval. pose proof (mapM_deref_seq (objects st) []) as Hread.
  simpl in Hread. by rewrite Hread.
Qed.

Lemma attachProfiles_all profiles st :
  attachProfiles profiles (indices_where lacks_profile 0 (objects st)) st
  = Normal {| objects := resolve profiles <$> objects st;
              conversationMap := conversationMap st |}.
Proof.
  destruct st as [objs cm].
  apply (attachProfiles_indices profiles objs [] cm).
Qed.

Lemma userIdsOf_all st :
  userIdsOf st (indices_where lacks_profile 0 (objects st))
  = Normal (missing_ids st).
Proof.
  destruct st as [objs cm].
  apply (userIdsOf_indices lacks_profile objs [] cm).
Qed.

Lemma missing_ids_length st :
  missing_ids st ≠ [] →
  (0 <? length (indices_where lacks_profile 0 (objects st)))%nat = true.
Proof.
  intros Hne. apply Nat.ltb_lt. rewrite length_indices_where.
  unfold missing_ids in Hne.
  destruct (filter _ (objects st)); [done|simpl; lia].
Qed.

Lemma fetchConversations_looked_up store user w messages st presp :
  fetched store user messages st →
  missing_ids st ≠ [] →
  profiles_with_id_in store (missing_ids st) = Resolved presp →
  MessagesScreen.fetchConversations store (Some user) w
  = (Normal tt,
     world_after w
       (Some (Array_sort compareConversations
                         (resolve (data presp) <$> objects st)))
       [select_messages (user_id user); select_profiles_in (missing_ids st)]
       []).
Proof.
  intros Hf Hne Hp. pose proof Hf as [(resp & Hq & He & Hm) [Hrun HG]].
  pose proof (fetched_group _ _ _ _ _ Hf Hq) as Hgroup. unfold mret in Hgroup.
  destruct (after_group user messages None st HG) as [Hw _].
  run_M. rewrite Hq. simpl. rewrite He, Hgroup. simpl. rewrite Hw.
  rewrite (missing_ids_length _ Hne), userIdsOf_all, Hp, attachProfiles_all.
  rewrite conversationList_values; simpl.
  - by rewrite app_nil_r, <- app_assoc.
  - rewrite length_fmap. apply (grouped_values _ _ _ HG).
Qed.

Lemma fetchConversations_lookup_rejected store user w messages st e :
  fetched store user messages st →
  missing_ids st ≠ [] →
  profiles_with_id_in store (missing_ids st) = Rejected e →
  MessagesScreen.fetchConversations store (Some user) w
  = (Normal tt,
     world_after w None
       [select_messages (user_id user); select_profiles_in (missing_ids st)]
       [("Error fetching conversations:", e)]).
Proof.
  intros Hf Hne Hp. pose proof Hf as [(resp & Hq & He & Hm) [Hrun HG]].
  pose proof (fetched_group _ _ _ _ _ Hf Hq) as Hgroup. unfold mret in Hgroup.
  destruct (after_group user messages None st HG) as [Hw _].
  run_M. rewrite Hq. simpl. rewrite He, Hgroup. simpl. rewrite Hw.
  rewrite (missing_ids_length _ Hne), userIdsOf_all, Hp. simpl.
  by rewrite <- app_assoc.
Qed.

(** Whatever the store answers, a run completes normally and leaves a
    world that depends on the previous one through [world_after] only. *)
Lemma fetchConversations_world store user :
  ∃ convs rqs logged,
    Forall (λ rq, allowed rq = true) rqs
    ∧ ∀ w, MessagesScreen.fetchConversations store (Some user) w
           = (Normal tt, world_after w convs rqs logged).
Proof.
  destruct (messages_involving store (user_id user)) as [resp|e] eqn:Hq.
  - destruct (error resp) as [e|] eqn:He.
    + do 3 eexists. split; [|intros w; by eapply fetchConversations_error].
      by repeat constructor.
    + destruct (fetched_intro store user resp Hq He) as [st Hf].
      destruct (decide (missing_ids st = [])) as [Hnil|Hne].
      * do 3 eexists. split; [|intros w; by eapply fetchConversations_complete].
        by repeat constructor.
      * destruct (profiles_with_id_in store (missing_ids st)) as [presp|e] eqn:Hp.
        -- do 3 eexists.
           split; [|intros w; by eapply fetchConversations_looked_up].
           by repeat constructor.
        -- do 3 eexists.
           split; [|intros w; by eapply fetchConversations_lookup_rejected].
           by repeat constructor.
  - do 3 eexists. split; [|intros w; by eapply fetchConversations_rejected].
    by repeat constructor.
Qed.

(** When both queries are answered, the list put on the screen is the
    result of [aggregate] on the messages and the profiles received. *)
Lemma fetchConversations_shows_aggregate store user w resp :
  messages_involving store (user_id user) = Resolved resp →
  error resp = None →
  (∀ ids e, profiles_with_id_in store ids ≠ Rejected e) →
  ∃ profiles w',
    MessagesScreen.fetchConversations store (Some user) w = (Normal tt, w')
    ∧ aggregate user (default [] (data resp)) profiles
      = Normal (MessagesScreen.conversations (screen w')).
Proof.
  intros Hq He Hans. destruct (fetched_intro store user resp Hq He) as [st Hf].
  pose proof Hf as [_ [Hrun HG]].
  assert (Hagg : ∀ profiles,
            aggregate user (default [] (data resp)) profiles
            = Normal (Array_sort compareConversations
                                 (resolve profiles <$> objects st))).
  { intros profiles. unfold aggregate. rewrite Hrun. simpl.
    apply (after_group _ _ profiles _ HG). }
  destruct (decide (missing_ids st = [])) as [Hnil|Hne].
  - exists None. eexists. split; [by eapply fetchConversations_complete|].
    rewrite Hagg. simpl. do 2 f_equal. apply (resolve_complete None _ 0%nat).
    apply length_zero_iff_nil. rewrite length_indices_where.
    unfold missing_ids in Hnil. apply fmap_nil_inv in Hnil. by rewrite Hnil.
  - destruct (profiles_with_id_in store (missing_ids st)) as [presp|e] eqn:Hp;
      [|by destruct (Hans _ _ Hp)].
    exists (data presp). eexists.
    split; [by eapply fetchConversations_looked_up|]. by rewrite Hagg.
Qed.

(** ** The properties of the aggregation *)

(** C1. Whatever the messages, the aggregation ends normally and its
    conversations carry, each once, exactly the distinct counterparty ids
    of the input; no message gives no conversation; and the counterparty
    id of a message is its receiver when the user is the sender and its
    sender when the user is the receiver. *)
Theorem one_conversation_per_counterparty (user : User)
    (messages : list Message.t) (profiles : option (list UserProfile.t)) :
  (∃ out, aggregate user messages profiles = Normal out
          ∧ otherUserId <$> out ≡ₚ remove_dups (otherUserIdOf user <$> messages))
  ∧ aggregate user [] profiles = Normal []
  ∧ (∀ m, Message.sender_id m = Some (user_id user) →
          otherUserIdOf user m = Message.receiver_id m)
  ∧ (∀ m, Message.receiver_id m = Some (user_id user) →
          otherUserIdOf user m = Message.sender_id m).
Proof.
  split; [|split; [done|split]].
  - destruct (aggregate_summaries user messages profiles)
      as (out & Hrun & Hnd & Hdom & _).
    exists out. split; [done|].
    apply NoDup_Permutation; [done|apply NoDup_remove_dups|].
    intros k. by rewrite elem_of_remove_dups.
  - intros m Hs. unfold otherUserIdOf. by rewrite decide_True.
  - intros m Hr. unfold otherUserIdOf. case_decide; congruence.
Qed.

(** C2. Every counterparty of the input has its conversation, and the
    [lastMessage] of a conversation is a message of the partition of its
    counterparty whose [created_at] is at least that of every message of
    the partition. *)
Theorem lastMessage_is_latest (user : User) (messages : list Message.t)
    (profiles : option (list UserProfile.t)) :
  ∃ out, aggregate user messages profiles = Normal out
    ∧ (∀ k, k ∈ otherUserIdOf user <$> messages →
            ∃ c, c ∈ out ∧ otherUserId c = k)
    ∧ (∀ c, c ∈ out →
         ∃ last, lastMessage c = Some last
           ∧ last ∈ thread user (otherUserId c) messages
           ∧ ∀ m, m ∈ thread user (otherUserId c) messages →
                  Message.created_at m ≤ Message.created_at last).
Proof.
  destruct (aggregate_summaries user messages profiles)
    as (out & Hrun & _ & Hdom & Hsum).
  exists out. split; [done|]. split.
  - intros k Hk. apply Hdom, list_elem_of_fmap in Hk as (c & -> & Hc). eauto.
  - intros c Hc. destruct (Hsum c Hc) as [(last & Hl & before & after & Ht & Hb & Ha) _].
    exists last. split; [done|]. rewrite Ht. split.
    + apply elem_of_app. right. by left.
    + intros m Hm. apply elem_of_app in Hm as [Hm|Hm].
      * pose proof (proj1 (Forall_forall _ _) Hb m Hm). simpl in *. lia.
      * apply elem_of_cons in Hm as [->|Hm]; [lia|].
        apply (proj1 (Forall_forall _ _) Ha m Hm).
Qed.

(** C3. The [unreadCount] of a conversation is the number of messages of
    the partition of its counterparty whose [receiver_id] is the id of the
    user and whose [read] flag is false. *)
Theorem unreadCount_counts_unread (user : User) (messages : list Message.t)
    (profiles : option (list UserProfile.t)) :
  ∃ out, aggregate user messages profiles = Normal out
    ∧ (∀ k, k ∈ otherUserIdOf user <$> messages →
            ∃ c, c ∈ out ∧ otherUserId c = k)
    ∧ (∀ c, c ∈ out →
         unreadCount c
         = length (filter (λ m, Message.receiver_id m = Some (user_id user)
                                ∧ Message.read m = false)
                          (thread user (otherUserId c) messages))).
Proof.
  destruct (aggregate_summaries user messages profiles)
    as (out & Hrun & _ & Hdom & Hsum).
  exists out. split; [done|]. split.
  - intros k Hk. apply Hdom, list_elem_of_fmap in Hk as (c & -> & Hc). eauto.
  - intros c Hc. by destruct (Hsum c Hc) as [_ Hu].
Qed.

(** C4. The conversations come out in non-increasing order of the
    [created_at] of their [lastMessage], which each of them has; the
    comparator answers 0 as soon as one side has no [lastMessage], and the
    sort returns a rearrangement of any list of conversations, with or
    without last messages. *)
Theorem sorted_by_recency (user : User) (messages : list Message.t)
    (profiles : option (list UserProfile.t)) :
  (∃ out, aggregate user messages profiles = Normal out
     ∧ ∀ i j a b, (i ≤ j)%nat → out !! i = Some a → out !! j = Some b →
         ∃ la lb, lastMessage a = Some la ∧ lastMessage b = Some lb
                  ∧ Message.created_at lb ≤ Message.created_at la)
  ∧ (∀ a b, lastMessage a = None ∨ lastMessage b = None →
            compareConversations a b = 0)
  ∧ (∀ l, Array_sort compareConversations l ≡ₚ l).
Proof.
  split; [|split].
  - destruct (aggregate_summaries user messages profiles)
      as (out & Hrun & _ & _ & Hsum).
    destruct (aggregate_Grouped user messages profiles) as (st & _ & _ & Hagg).
    exists out. split; [done|]. intros i j a b Hij Hi Hj.
    destruct (Hsum a (list_elem_of_lookup_2 _ _ _ Hi)) as [(la & Hla & _) _].
    destruct (Hsum b (list_elem_of_lookup_2 _ _ _ Hj)) as [(lb & Hlb & _) _].
    exists la, lb. split; [done|]. split; [done|].
    destruct (decide (i = j)) as [->|Hne].
    { rewrite Hi in Hj. injection Hj as <-. rewrite Hla in Hlb.
      injection Hlb as <-. lia. }
    assert (Hsorted : StronglySorted (λ x y, last_time y ≤ last_time x) out).
    { rewrite Hrun in Hagg. injection Hagg as ->.
      apply Array_sort_sorted. intros x y Hx Hy.
      apply compareConversations_last_time.
      - destruct (Hsum x) as [(? & -> & _) _]; [|done].
        by rewrite Array_sort_Permutation.
      - destruct (Hsum y) as [(? & -> & _) _]; [|done].
        by rewrite Array_sort_Permutation. }
    pose proof (StronglySorted_lookup _ out i j a b Hsorted ltac:(lia) Hi Hj) as Hab.
    unfold last_time in Hab. by rewrite Hla, Hlb in Hab.
  - intros a b [Hn|Hn]; unfold compareConversations; rewrite Hn; [done|].
    by destruct (lastMessage a).
  - apply Array_sort_Permutation.
Qed.

(** C10. Every counterparty of the input has its conversation, and among
    the messages of a partition that share the greatest [created_at],
    [lastMessage] is the one that comes first in the input: everything in
    front of it in the partition is strictly older, and nothing behind it
    is more recent. *)
Theorem ties_go_to_the_earliest (user : User) (messages : list Message.t)
    (profiles : option (list UserProfile.t)) :
  ∃ out, aggregate user messages profiles = Normal out
    ∧ (∀ k, k ∈ otherUserIdOf user <$> messages →
            ∃ c, c ∈ out ∧ otherUserId c = k)
    ∧ (∀ c, c ∈ out →
         ∃ last before after,
           lastMessage c = Some last
           ∧ thread user (otherUserId c) messages = before ++ last :: after
           ∧ Forall (λ m, Message.created_at m < Message.created_at last) before
           ∧ Forall (λ m, Message.created_at m ≤ Message.created_at last) after).
Proof.
  destruct (aggregate_summaries user messages profiles)
    as (out & Hrun & _ & Hdom & Hsum).
  exists out. split; [done|]. split.
  - intros k Hk. apply Hdom, list_elem_of_fmap in Hk as (c & -> & Hc). eauto.
  - intros c Hc.
    destruct (Hsum c Hc) as [(last & Hl & before & after & Ht & Hb & Ha) _].
    by exists last, before, after.
Qed.

(** C7, as stated, fails. A message without sender and receiver id is
    not turned away: it opens a conversation under the id [undefined]. *)
Lemma message_without_ids_opens_a_conversation :
  aggregate me [anonymous] None
  = Normal [ {| otherUserId := None; otherUserProfile := None;
                lastMessage := Some anonymous; unreadCount := 0 |} ]
  ∧ aggregate me [anonymous] None ≠ Normal [].
Proof. split; [reflexivity|discriminate]. Qed.

(** C7, amended. A message that lacks both ids is grouped like any other:
    its counterparty id is [undefined], and the output has a conversation
    for that id, with a last message. *)
Theorem message_without_ids_is_grouped (user : User) (messages : list Message.t)
    (profiles : option (list UserProfile.t)) (m : Message.t) :
  m ∈ messages →
  Message.sender_id m = None →
  Message.receiver_id m = None →
  ∃ out c, aggregate user messages profiles = Normal out
           ∧ c ∈ out
           ∧ otherUserId c = None
           ∧ m ∈ thread user None messages
           ∧ is_Some (lastMessage c).
Proof.
  intros Hm Hs Hr.
  assert (Hk : otherUserIdOf user m = None).
  { unfold otherUserIdOf. rewrite Hs. by rewrite decide_False. }
  destruct (aggregate_summaries user messages profiles)
    as (out & Hrun & _ & Hdom & Hsum).
  assert (Hin : None ∈ otherUserId <$> out).
  { apply Hdom, list_elem_of_fmap. by exists m. }
  apply list_elem_of_fmap in Hin as (c & Hc & Hout).
  exists out, c. split; [done|]. split; [done|]. split; [done|]. split.
  - unfold thread. by apply list_elem_of_filter.
  - destruct (Hsum c Hout) as [(last & -> & _) _]. by eexists.
Qed.

Lemma message_without_ids_is_grouped_witness :
  ∃ out c, aggregate me [sent "m1" "A" 3; anonymous] None = Normal out
           ∧ c ∈ out
           ∧ otherUserId c = None
           ∧ anonymous ∈ thread me None [sent "m1" "A" 3; anonymous]
           ∧ is_Some (lastMessage c).
Proof.
  apply (message_without_ids_is_grouped me [sent "m1" "A" 3; anonymous] None
                                        anonymous).
  - right. left.
  - reflexivity.
  - reflexivity.
Defined.

(** ** The batch lookup *)

Lemma missing_ids_NoDup user messages st :
  Grouped user messages st → NoDup (missing_ids st).
Proof.
  intros HG. unfold missing_ids.
  eapply sublist_NoDup; [apply (grouped_keys _ _ _ HG)|].
  apply fmap_sublist, sublist_filter.
Qed.

Lemma missing_ids_spec user messages st k :
  Grouped user messages st →
  k ∈ missing_ids st
  ↔ k ∈ otherUserIdOf user <$> messages
    ∧ first_profile user (thread user k messages) = None.
Proof.
  intros HG. unfold missing_ids. rewrite list_elem_of_fmap. split.
  - intros (c & -> & Hc). apply list_elem_of_filter in Hc as [Hl Hc].
    split.
    + apply (grouped_dom _ _ _ HG), list_elem_of_fmap. eauto.
    + pose proof (proj1 (Forall_forall _ _) (grouped_sum _ _ _ HG) c Hc) as [Hp _ _].
      rewrite <- Hp. unfold lacks_profile in Hl. by destruct (otherUserProfile c).
  - intros [Hk Hp]. apply (grouped_dom _ _ _ HG), list_elem_of_fmap in Hk as (c & -> & Hc).
    exists c. split; [done|]. apply list_elem_of_filter. split; [|done].
    pose proof (proj1 (Forall_forall _ _) (grouped_sum _ _ _ HG) c Hc) as [Hp' _ _].
    unfold lacks_profile. by rewrite Hp', Hp.
Qed.

(** C5, as stated, fails. The counterparty [A] sent a message that has
    its profile embedded, and yet the batch lookup asks for [A]: the
    profile is taken from the first message of the thread only, and that
    one was sent by the user. *)
Lemma lookup_for_a_counterparty_who_wrote :
  requests (MessagesScreen.fetchConversations
              (store_with (rows reply_then_wait) (rows [profile_of "A"]))
              (Some me) showing_earlier).2
  = [select_messages "me"; select_profiles_in [Some "A"]]
  ∧ ∃ m, m ∈ reply_then_wait
         ∧ Message.sender_id m = Some "A"
         ∧ Message.receiver_id m = Some "me"
         ∧ Message.sender_profile m = Some (profile_of "A").
Proof.
  split; [reflexivity|]. exists (received "m1" "A" true 5).
  split; [right; left|done].
Qed.

(** C5, amended. When the messages have arrived, at most one batch lookup
    follows, and it names, each once, exactly the counterparties whose
    first message in input order brings no profile along: it was sent by
    the user, or it has no [sender_profile]. No lookup is sent when there
    is no such counterparty. *)
Theorem lookup_is_for_threads_opened_without_profile (store : Store)
    (user : User) (w : World MessagesScreen.State)
    (resp : Response (list Message.t)) :
  messages_involving store (user_id user) = Resolved resp →
  error resp = None →
  ∃ ids,
    requests (MessagesScreen.fetchConversations store (Some user) w).2
    = requests w ++ select_messages (user_id user)
        :: (if decide (ids = []) then [] else [select_profiles_in ids])
    ∧ NoDup ids
    ∧ ∀ k, k ∈ ids
           ↔ k ∈ otherUserIdOf user <$> default [] (data resp)
             ∧ first_profile user (thread user k (default [] (data resp))) = None.
Proof.
  intros Hq He. destruct (fetched_intro store user resp Hq He) as [st Hf].
  pose proof Hf as [_ [_ HG]].
  exists (missing_ids st). split; [|split].
  - destruct (decide (missing_ids st = [])) as [Hnil|Hne].
    + by rewrite (fetchConversations_complete _ _ _ _ _ Hf Hnil).
    + destruct (profiles_with_id_in store (missing_ids st)) as [presp|e] eqn:Hp.
      * by rewrite (fetchConversations_looked_up _ _ _ _ _ _ Hf Hne Hp).
      * by rewrite (fetchConversations_lookup_rejected _ _ _ _ _ _ Hf Hne Hp).
  - by eapply missing_ids_NoDup.
  - intros k. by eapply missing_ids_spec.
Qed.

Lemma lookup_is_for_threads_opened_without_profile_witness :
  ∃ ids,
    requests (MessagesScreen.fetchConversations
                (store_with (rows reply_then_wait) (rows [profile_of "A"]))
                (Some me) showing_earlier).2
    = requests showing_earlier ++ select_messages "me"
        :: (if decide (ids = []) then [] else [select_profiles_in ids])
    ∧ NoDup ids
    ∧ ∀ k, k ∈ ids
           ↔ k ∈ otherUserIdOf me <$> reply_then_wait
             ∧ first_profile me (thread me k reply_then_wait) = None.
Proof.
  apply (lookup_is_for_threads_opened_without_profile
           (store_with (rows reply_then_wait) (rows [profile_of "A"]))
           me showing_earlier {| data := Some reply_then_wait; error := None |});
    reflexivity.
Defined.

(** C6, as stated, fails. A failure of the batch lookup never reaches the
    caller: if the awaited call rejects, [fetchConversations] still
    completes normally; and when the store reports the failure in the
    [error] of its answer, which line 103 does not read, the list is even
    replaced by conversations without profile. *)
Lemma failed_lookup_is_not_propagated :
  (MessagesScreen.fetchConversations
     (store_with (rows [sent "m1" "A" 3]) (Rejected (StoreError "network")))
     (Some me) showing_earlier).1
  = Normal tt
  ∧ MessagesScreen.fetchConversations
      (store_with (rows [sent "m1" "A" 3]) (failed "network"))
      (Some me) showing_earlier
    = (Normal tt,
       {| screen :=
            {| MessagesScreen.conversations :=
                 [ {| otherUserId := Some "A"; otherUserProfile := None;
                      lastMessage := Some (sent "m1" "A" 3);
                      unreadCount := 0 |} ];
               MessagesScreen.loading := false |};
          requests := [select_messages "me"; select_profiles_in [Some "A"]];
          console := []; alerts := [] |}).
Proof. split; reflexivity. Qed.

(** C6, amended. If the batch lookup throws, [fetchConversations] catches
    the failure itself: the call completes normally, the failure is
    written once to the console, [loading] is switched off, and the
    conversation list keeps the value it had, so that nothing of the
    aggregation computed so far is shown. *)
Theorem rejected_lookup_keeps_the_list (store : Store) (user : User)
    (w : World MessagesScreen.State) (resp : Response (list Message.t))
    (e : Exn) :
  messages_involving store (user_id user) = Resolved resp →
  error resp = None →
  (∃ k, k ∈ otherUserIdOf user <$> default [] (data resp)
        ∧ first_profile user (thread user k (default [] (data resp))) = None) →
  (∀ ids, profiles_with_id_in store ids = Rejected e) →
  ∃ w', MessagesScreen.fetchConversations store (Some user) w = (Normal tt, w')
        ∧ MessagesScreen.conversations (screen w')
          = MessagesScreen.conversations (screen w)
        ∧ MessagesScreen.loading (screen w') = false
        ∧ console w' = console w ++ [("Error fetching conversations:", e)]
        ∧ alerts w' = alerts w.
Proof.
  intros Hq He (k & Hk) Hrej.
  destruct (fetched_intro store user resp Hq He) as [st Hf].
  pose proof Hf as [_ [_ HG]].
  assert (Hne : missing_ids st ≠ []).
  { apply (missing_ids_spec _ _ _ _ HG) in Hk. intros Hnil.
    rewrite Hnil in Hk. by apply elem_of_nil in Hk. }
  eexists. split.
  - by apply (fetchConversations_lookup_rejected _ _ _ _ _ _ Hf Hne (Hrej _)).
  - done.
Qed.

Lemma rejected_lookup_keeps_the_list_witness :
  ∃ w', MessagesScreen.fetchConversations
          (store_with (rows [sent "m1" "A" 3]) (Rejected (StoreError "network")))
          (Some me) showing_earlier
        = (Normal tt, w')
        ∧ MessagesScreen.conversations (screen w') = [earlier]
        ∧ MessagesScreen.loading (screen w') = false
        ∧ console w'
          = [] ++ [("Error fetching conversations:", StoreError "network")]
        ∧ alerts w' = [].
Proof.
  apply (rejected_lookup_keeps_the_list
           (store_with (rows [sent "m1" "A" 3]) (Rejected (StoreError "network")))
           me showing_earlier {| data := Some [sent "m1" "A" 3]; error := None |}
           (StoreError "network")).
  - reflexivity.
  - reflexivity.
  - exists (Some "A"). split; [left|reflexivity].
  - reflexivity.
Defined.

(** C8. Against the same answers of the store, a run of
    [fetchConversations] completes normally and leaves either one list
    that the answers alone determine or the list that was there; running
    it again changes nothing on the screen. *)
Theorem refetch_gives_the_same_list (store : Store) (user : option User) :
  ∃ convs, ∀ w,
    (MessagesScreen.fetchConversations store user w).1 = Normal tt
    ∧ MessagesScreen.conversations
        (screen (MessagesScreen.fetchConversations store user w).2)
      = default (MessagesScreen.conversations (screen w)) convs
    ∧ screen (MessagesScreen.fetchConversations store user
                (MessagesScreen.fetchConversations store user w).2).2
      = screen (MessagesScreen.fetchConversations store user w).2.
Proof.
  destruct user as [user|].
  - destruct (fetchConversations_world store user)
      as (convs & rqs & logged & _ & Hrun).
    exists convs. intros w. rewrite !Hrun. unfold world_after. simpl.
    by destruct convs.
  - by exists None.
Qed.

(** ** Writes of a meeting status *)

Section Adds.
Context {S : Type}.

Lemma adds_nothing {A} (m : M (World S) A) :
  (∀ w, requests (m w).2 = requests w) → adds_allowed m.
Proof. intros Hm w. exists []. by rewrite Hm, app_nil_r. Qed.

Lemma adds_ret {A} (a : A) : adds_allowed (mret a : M (World S) A).
Proof. by apply adds_nothing. Qed.

Lemma adds_throw {A} e : adds_allowed (throw e : M (World S) A).
Proof. by apply adds_nothing. Qed.

Lemma adds_setState (f : S → S) : adds_allowed (setState f).
Proof. by apply adds_nothing. Qed.

Lemma adds_console_error what e : adds_allowed (console_error (S:=S) what e).
Proof. by apply adds_nothing. Qed.

Lemma adds_Alert_alert title message :
  adds_allowed (Alert_alert (S:=S) title message).
Proof. by apply adds_nothing. Qed.

Lemma adds_await {A} rq (answer : Awaited A) :
  allowed rq = true → adds_allowed (await (S:=S) rq answer).
Proof.
  intros Hrq w. exists [rq]. split; [|by repeat constructor].
  unfold await. by destruct answer.
Qed.

Lemma adds_bind {A B} (m : M (World S) A) (f : A → M (World S) B) :
  adds_allowed m → (∀ a, adds_allowed (f a)) → adds_allowed (m ≫= f).
Proof.
  intros Hm Hf w. destruct (Hm w) as (r1 & Hr1 & Hok1).
  unfold mbind, M_bind. destruct (m w) as [[a|e] w1]; simpl in *.
  - destruct (Hf a w1) as (r2 & Hr2 & Hok2). exists (r1 ++ r2).
    split; [by rewrite Hr2, Hr1, app_assoc|by apply Forall_app].
  - by exists r1.
Qed.

Lemma adds_try_catch {A} (body : M (World S) A) handler :
  adds_allowed body → (∀ e, adds_allowed (handler e)) →
  adds_allowed (try_catch body handler).
Proof.
  intros Hm Hf w. destruct (Hm w) as (r1 & Hr1 & Hok1).
  unfold try_catch. destruct (body w) as [[a|e] w1]; simpl in *.
  - by exists r1.
  - destruct (Hf e w1) as (r2 & Hr2 & Hok2). exists (r1 ++ r2).
    split; [by rewrite Hr2, Hr1, app_assoc|by apply Forall_app].
Qed.

Lemma adds_try_catch_finally {A} (body : M (World S) A) handler finalizer :
  adds_allowed body → (∀ e, adds_allowed (handler e)) →
  adds_allowed finalizer →
  adds_allowed (try_catch_finally body handler finalizer).
Proof.
  intros Hm Hf Hfin w.
  destruct (adds_try_catch body handler Hm Hf w) as (r1 & Hr1 & Hok1).
  unfold try_catch_finally.
  destruct (try_catch body handler w) as [r w1]; simpl in *.
  destruct (Hfin w1) as (r2 & Hr2 & Hok2). exists (r1 ++ r2).
  split; [|by apply Forall_app].
  destruct (finalizer w1) as [[[]|e] w2]; simpl in *;
    by rewrite Hr2, Hr1, app_assoc.
Qed.

End Adds.

Ltac adds :=
  repeat first
    [ apply adds_ret | apply adds_throw | apply adds_setState
    | apply adds_console_error | apply adds_Alert_alert
    | apply adds_await; reflexivity
    | apply adds_bind; [|intros ?]
    | apply adds_try_catch; [|intros ?]
    | apply adds_try_catch_finally; [|intros ?|]
    | case_match ].

(** For a computation that first reads the world: fix the world read. *)
Ltac adds_reading :=
  let w0 := fresh "w" in
  intros w0; cbv beta;
  lazymatch goal with
  | |- ∃ rqs, requests (?m w0).2 = _ ∧ _ => refine ((_ : adds_allowed m) w0)
  end.

Lemma adds_fetchMeetings store user :
  adds_allowed (ScheduleScreen.fetchMeetings store user).
Proof.
  unfold ScheduleScreen.fetchMeetings, ScheduleScreen.setLoading,
    ScheduleScreen.setMeetings.
  destruct user; adds. adds_reading. adds.
Qed.

Lemma adds_updateMeetingStatus store user meetingId status :
  adds_allowed (ScheduleScreen.updateMeetingStatus store user meetingId status).
Proof.
  unfold ScheduleScreen.updateMeetingStatus.
  destruct status; adds; apply adds_fetchMeetings.
Qed.

Lemma adds_fetchProfiles store user :
  adds_allowed (DiscoverScreen.fetchProfiles store user).
Proof.
  unfold DiscoverScreen.fetchProfiles, DiscoverScreen.setLoading,
    DiscoverScreen.setProfiles.
  destruct user; adds.
Qed.

Lemma adds_sendConnectionRequest store user targetUserId :
  adds_allowed (DiscoverScreen.sendConnectionRequest store user targetUserId).
Proof. unfold DiscoverScreen.sendConnectionRequest. destruct user; adds. Qed.

Lemma adds_fetchConnections store user :
  adds_allowed (ConnectionsScreen.fetchConnections store user).
Proof.
  unfold ConnectionsScreen.fetchConnections, ConnectionsScreen.query,
    ConnectionsScreen.setLoading, ConnectionsScreen.setLists.
  destruct user; adds.
Qed.

Lemma adds_handleConnectionResponse store user connectionId status :
  adds_allowed
    (ConnectionsScreen.handleConnectionResponse store user connectionId status).
Proof.
  unfold ConnectionsScreen.handleConnectionResponse.
  adds; apply adds_fetchConnections.
Qed.

Lemma adds_updateProfile store user updates :
  adds_allowed (ProfileScreen.updateProfile store user updates).
Proof. unfold ProfileScreen.updateProfile. destruct user; adds. Qed.

Lemma adds_handleSave store user :
  adds_allowed (ProfileScreen.handleSave store user).
Proof.
  unfold ProfileScreen.handleSave, ProfileScreen.setEditing. adds.
  adds_reading. apply adds_updateProfile.
Qed.

Lemma adds_updateStatus store user status :
  adds_allowed (ProfileScreen.updateStatus store user status).
Proof.
  unfold ProfileScreen.updateStatus.
  apply adds_bind; [apply adds_updateProfile|]. intros ?. adds.
Qed.

Lemma adds_fetchConversations store user :
  adds_allowed (MessagesScreen.fetchConversations store user).
Proof.
  destruct user as [user|]; [|apply adds_ret].
  destruct (fetchConversations_world store user)
    as (convs & rqs & logged & Hok & Hrun).
  intros w. exists rqs. by rewrite Hrun.
Qed.

(** Every handler adds requests to those already sent, and none of them
    writes a meeting status other than ['confirmed'] or ['cancelled']. *)
Lemma run_handler_requests store user {S} (h : Handler S) :
  adds_allowed (run_handler store user h).
Proof.
  destruct h; simpl.
  - apply adds_fetchConversations.
  - apply adds_fetchMeetings.
  - apply adds_updateMeetingStatus.
  - apply adds_fetchProfiles.
  - apply adds_sendConnectionRequest.
  - apply adds_fetchConnections.
  - apply adds_handleConnectionResponse.
  - apply adds_handleSave.
  - apply adds_updateStatus.
Qed.

(** C9. No handler of the repository sends a write of a meeting status
    other than ['confirmed'] or ['cancelled'], so that ['completed'] is
    never written; the card of a meeting carries a handler only when the
    meeting is ['pending'], and then its two handlers are the calls of
    [updateMeetingStatus] with ['confirmed'] and with ['cancelled']. *)
Theorem only_confirmed_or_cancelled_is_written (store : Store)
    (user : option User) :
  (∀ S (h : Handler S) (w : World S) rq,
     rq ∈ requests (run_handler store user h w).2 →
     rq ∈ requests w
     ∨ ∀ status id, rq = update_meeting status id →
         status = Meeting.confirmed ∨ status = Meeting.cancelled)
  ∧ (∀ S (h : Handler S) (w : World S) id,
       update_meeting Meeting.completed id
         ∈ requests (run_handler store user h w).2 →
       update_meeting Meeting.completed id ∈ requests w)
  ∧ (∀ meeting t h,
       t ∈ ScheduleScreen.meetingActions store user meeting →
       ScheduleScreen.onPress t = Some h →
       Meeting.status meeting = Meeting.pending
       ∧ ∃ status,
           h = ScheduleScreen.updateMeetingStatus store user
                 (Meeting.id meeting) status)
  ∧ (∀ meeting,
       Meeting.status meeting = Meeting.pending →
       ScheduleScreen.onPress <$> ScheduleScreen.meetingActions store user meeting
       = [ Some (ScheduleScreen.updateMeetingStatus store user
                   (Meeting.id meeting) ScheduleScreen.confirmed);
           Some (ScheduleScreen.updateMeetingStatus store user
                   (Meeting.id meeting) ScheduleScreen.cancelled) ]).
Proof.
  assert (Hall : ∀ S (h : Handler S) (w : World S) rq,
            rq ∈ requests (run_handler store user h w).2 →
            rq ∈ requests w ∨ allowed rq = true).
  { intros S h w rq Hrq.
    destruct (run_handler_requests store user h w) as (rqs & Hw & Hok).
    rewrite Hw in Hrq. apply elem_of_app in Hrq as [Hrq|Hrq]; [by left|right].
    by apply (proj1 (Forall_forall _ _) Hok). }
  split; [|split; [|split]].
  - intros S h w rq Hrq. destruct (Hall S h w rq Hrq) as [Hold|Hok]; [by left|].
    right. intros status id ->. destruct status; simpl in Hok; auto; discriminate.
  - intros S h w id Hrq. by destruct (Hall S h w _ Hrq) as [Hold|Hok].
  - intros meeting t h Ht Hh. unfold ScheduleScreen.meetingActions in Ht.
    apply elem_of_app in Ht as [Ht|Ht].
    + case_decide as Hp; [|by apply elem_of_nil in Ht]. split; [done|].
      apply elem_of_cons in Ht as [->|Ht].
      * exists ScheduleScreen.confirmed. simpl in Hh. congruence.
      * apply list_elem_of_singleton in Ht as ->.
        exists ScheduleScreen.cancelled. simpl in Hh. congruence.
    + case_decide; [|by apply elem_of_nil in Ht].
      apply list_elem_of_singleton in Ht as ->. done.
  - intros meeting Hp. unfold ScheduleScreen.meetingActions.
    rewrite decide_True by done. rewrite decide_False; [done|].
    rewrite Hp. discriminate.
Qed.

(** ** The scenarios of the specification *)

(** One received, unread, at 10 and one sent at 5: one conversation, the
    last message is the one of 10 and one message is unread. *)
Example scenario_one_thread :
  aggregate me [received "m1" "A" false 10; sent "m2" "A" 5] None
  = Normal [ {| otherUserId := Some "A";
                otherUserProfile := Some (profile_of "A");
                lastMessage := Some (received "m1" "A" false 10);
                unreadCount := 1 |} ].
Proof. reflexivity. Qed.

(** Sent to A at 20 and to B at 30: B comes first. *)
Example scenario_order :
  otherUserId <$> default [] (match aggregate me [sent "m1" "A" 20; sent "m2" "B" 30]
                                      (Some [profile_of "A"; profile_of "B"]) with
                              | Normal out => Some out
                              | Throw _ => None
                              end)
  = [Some "B"; Some "A"].
Proof. reflexivity. Qed.

(** Three messages from A, two of them unread. *)
Example scenario_unread :
  unreadCount <$> default [] (match aggregate me [received "m1" "A" false 3;
                                                 received "m2" "A" true 2;
                                                 received "m3" "A" false 1] None with
                              | Normal out => Some out
                              | Throw _ => None
                              end)
  = [2%nat].
Proof. reflexivity. Qed.

(** No message: no conversation, and the screen shows the empty list. *)
Example scenario_empty :
  MessagesScreen.fetchConversations (store_with (rows []) no_answer) (Some me)
                                    showing_earlier
  = (Normal tt,
     {| screen := {| MessagesScreen.conversations := [];
                     MessagesScreen.loading := false |};
        requests := [select_messages "me"]; console := []; alerts := [] |}).
Proof. reflexivity. Qed.

(** A thread in which only the user wrote: the profile of the counterparty
    is asked for, and attached. *)
Example scenario_lookup :
  MessagesScreen.fetchConversations
    (store_with (rows [sent "m1" "A" 3]) (rows [profile_of "A"])) (Some me)
    showing_earlier
  = (Normal tt,
     {| screen :=
          {| MessagesScreen.conversations :=
               [ {| otherUserId := Some "A";
                    otherUserProfile := Some (profile_of "A");
                    lastMessage := Some (sent "m1" "A" 3);
                    unreadCount := 0 |} ];
             MessagesScreen.loading := false |};
        requests := [select_messages "me"; select_profiles_in [Some "A"]];
        console := []; alerts := [] |}).
Proof. reflexivity. Qed.

(** Two messages of one thread at the same instant: the first in input
    order stays. *)
Example scenario_tie :
  lastMessage <$> default [] (match aggregate me [received "m1" "A" true 4;
                                                 received "m2" "A" true 4] None with
                              | Normal out => Some out
                              | Throw _ => None
                              end)
  = [Some (received "m1" "A" true 4)].
Proof. reflexivity. Qed.

(** ** The preview of a message *)

Lemma substring_all s : ∀ n, (String.length s ≤ n)%nat → String.substring 0 n s = s.
Proof.
  induction s as [|a s IH]; intros [|n] Hn; simpl in *; try done; try lia.
  f_equal. apply IH. lia.
Qed.

Lemma length_substring s : ∀ n,
  (n ≤ String.length s)%nat → String.length (String.substring 0 n s) = n.
Proof.
  induction s as [|a s IH]; intros [|n] Hn; simpl in *; try done; try lia.
  f_equal. apply IH. lia.
Qed.

Lemma length_app_string s t :
  String.length (s +:+ t) = (String.length s + String.length t)%nat.
Proof. induction s as [|a s IH]; simpl; [done|]. by rewrite IH. Qed.

Lemma substring_app_l s t : ∀ n,
  (n ≤ String.length s)%nat →
  String.substring 0 n (s +:+ t) = String.substring 0 n s.
Proof.
  induction s as [|a s IH]; intros [|n] Hn; simpl in *; try done; try lia.
  - by destruct t.
  - f_equal. apply IH. lia.
Qed.

(** X1. A content of at most [maxLength] code units is shown as it is; a
    longer one is cut to its first [maxLength] code units and three dots
    are added, so that what is shown has [maxLength + 3] code units, which
    is more than the content had when it exceeded [maxLength] by one or
    two. *)
Theorem truncateMessage_shape (content : string) (maxLength : Z) :
  (Z.of_nat (String.length content) ≤ maxLength →
     truncateMessage content maxLength = content)
  ∧ (0 ≤ maxLength < Z.of_nat (String.length content) →
       truncateMessage content maxLength
       = String.substring 0 (Z.to_nat maxLength) content +:+ "..."
       ∧ Z.of_nat (String.length (truncateMessage content maxLength))
         = maxLength + 3
       ∧ (Z.of_nat (String.length content) < maxLength + 3 →
            (String.length content
             < String.length (truncateMessage content maxLength))%nat)).
Proof.
  unfold truncateMessage. split.
  - intros Hle. by rewrite (proj2 (Z.leb_le _ _) Hle).
  - intros [H0 Hlt]. rewrite (proj2 (Z.leb_gt _ _) Hlt).
    split; [done|].
    assert (Hlen : Z.of_nat (String.length
                     (String.substring 0 (Z.to_nat maxLength) content +:+ "..."))
                   = maxLength + 3).
    { rewrite length_app_string, length_substring by lia. simpl. lia. }
    split; [done|]. lia.
Qed.

(** X2. Cutting what has been cut changes nothing, whatever the bound. *)
Theorem truncateMessage_idempotent (content : string) (maxLength : Z) :
  truncateMessage (truncateMessage content maxLength) maxLength
  = truncateMessage content maxLength.
Proof.
  unfold truncateMessage at 2 3.
  destruct (Z.leb_spec (Z.of_nat (String.length content)) maxLength) as [Hle|Hlt].
  - unfold truncateMessage. by rewrite (proj2 (Z.leb_le _ _) Hle).
  - unfold truncateMessage.
    assert (Hcut : String.length (String.substring 0 (Z.to_nat maxLength) content)
                   = Z.to_nat maxLength) by (apply length_substring; lia).
    rewrite length_app_string, Hcut. simpl.
    rewrite (proj2 (Z.leb_gt _ _)) by lia.
    rewrite substring_app_l by lia.
    rewrite <- Hcut at 1. by rewrite substring_all.
Qed.

(** ** The unread badge *)

Lemma pretty_small_length (n : nat) :
  (0 < n ≤ 99)%nat → (1 ≤ String.length (pretty n) ≤ 3)%nat.
Proof.
  intros Hn.
  assert (Hall : forallb (λ k, (1 <=? String.length (pretty k))%nat
                               && (String.length (pretty k) <=? 3)%nat)
                         (seq 1 99) = true) by (vm_compute; reflexivity).
  rewrite forallb_forall in Hall. specialize (Hall n).
  rewrite andb_true_iff, !Nat.leb_le in Hall. apply Hall, in_seq. lia.
Qed.

(** X3. A conversation of the list carries an unread badge exactly when
    its partition holds a message received by the user and not read, and
    the text of a badge has one to three code units. *)
Theorem unread_badge_shows_unread (user : User) (messages : list Message.t)
    (profiles : option (list UserProfile.t)) :
  ∃ out, aggregate user messages profiles = Normal out
    ∧ ∀ c, c ∈ out →
        (unreadBadge c = None
         ↔ ∀ m, m ∈ thread user (otherUserId c) messages →
                ¬ (Message.receiver_id m = Some (user_id user)
                   ∧ Message.read m = false))
        ∧ ∀ text, unreadBadge c = Some text →
                  (1 ≤ String.length text ≤ 3)%nat.
Proof.
  destruct (aggregate_summaries user messages profiles)
    as (out & Hrun & _ & _ & Hsum).
  exists out. split; [done|]. intros c Hc. destruct (Hsum c Hc) as [_ Hu].
  unfold unreadBadge, unread_in in *. split.
  - destruct (Nat.ltb_spec 0 (unreadCount c)) as [Hpos|Hzero].
    + split; [done|]. intros Hnone. exfalso. rewrite Hu in Hpos.
      destruct (filter _ (thread user (otherUserId c) messages)) as [|m l] eqn:Hf;
        [simpl in Hpos; lia|].
      assert (Hm : m ∈ filter (λ m, Message.receiver_id m = Some (user_id user)
                                    ∧ Message.read m = false)
                              (thread user (otherUserId c) messages))
        by (rewrite Hf; left).
      apply list_elem_of_filter in Hm as [Hp Hm]. by apply (Hnone m Hm).
    + split; [|done]. intros _ m Hm Hp.
      assert (Hin : m ∈ filter (λ m, Message.receiver_id m = Some (user_id user)
                                     ∧ Message.read m = false)
                               (thread user (otherUserId c) messages))
        by (by apply list_elem_of_filter).
      rewrite Hu in Hzero.
      destruct (filter _ (thread user (otherUserId c) messages));
        [by apply elem_of_nil in Hin|simpl in Hzero; lia].
  - intros text. destruct (Nat.ltb_spec 0 (unreadCount c)) as [Hpos|Hzero]; [|done].
    destruct (Nat.ltb_spec 99 (unreadCount c)) as [Hbig|Hsmall].
    + intros [= <-]. simpl. lia.
    + intros [= <-]. apply pretty_small_length. lia.
Qed.

(** ** The time shown beside a conversation *)

(** X4. The time of day is shown for a message that is at most 24 hours
    old, counted from the clock and not by calendar day; the weekday for a
    message between one and seven days old and for a message dated after
    the clock; month and day from seven days on. *)
Theorem formatMessageTime_by_age (intl : Intl) (now t : Z) :
  (t ≤ now < t + 86400000 →
     formatMessageTime intl now t = time_of_day intl t)
  ∧ (now < t ∨ t + 86400000 ≤ now < t + 7 * 86400000 →
       formatMessageTime intl now t = weekday_short intl t)
  ∧ (t + 7 * 86400000 ≤ now →
       formatMessageTime intl now t = month_and_day intl t).
Proof.
  unfold formatMessageTime. change (1000 * 60 * 60 * 24) with 86400000.
  pose proof (Z.div_mod (now - t) 86400000 ltac:(lia)) as Hdm.
  pose proof (Z.mod_pos_bound (now - t) 86400000 ltac:(lia)) as Hr.
  set (d := (now - t) / 86400000) in *. split; [|split].
  - intros H. assert (d = 0) as -> by lia. done.
  - intros H. destruct (Z.eqb_spec d 0) as [->|Hd]; [lia|].
    destruct (Z.ltb_spec d 7); [done|lia].
  - intros H. destruct (Z.eqb_spec d 0) as [->|Hd]; [lia|].
    destruct (Z.ltb_spec d 7); [lia|done].
Qed.

(** ** The week strip *)

Section WeekStrip.
Import ScheduleCalendar.
Context (locale : Locale).










End WeekStrip.


(** The week of Wednesday 3 April 2024 in Paris begins on the Sunday of
    the change to summer time. With the clock at 02:30, local time, the
    Sunday of the strip would be at 02:30 of a day that has no such time:
    it is read back as 03:30, every later day of the strip is set from
    it, and so the strip holds 03:30 on every day and not the date of the
    clock on the Wednesday. *)
Example week_strip_in_a_skipped_hour :
  let locale := ScheduleCalendar.paris_spring_2024 in
  let now := 1712104200000 in
  ScheduleCalendar.TimeWithinDay (ScheduleCalendar.LocalTime locale now)
  = 2 * 3600000 + 30 * 60000
  ∧ ¬ ScheduleCalendar.settled locale now
  ∧ ScheduleCalendar.getWeekDays locale now
    = (λ i, Some (now + 3600000 + (i - 3) * ScheduleCalendar.msPerDay))
        <$> [0; 1; 2; 3; 4; 5; 6]
  ∧ Forall (λ day, ∃ t, day = Some t
                        ∧ ScheduleCalendar.TimeWithinDay
                            (ScheduleCalendar.LocalTime locale t)
                          = 3 * 3600000 + 30 * 60000)
           (ScheduleCalendar.getWeekDays locale now).
Proof.
  cbv zeta.
  assert (Hdays :
    ScheduleCalendar.getWeekDays ScheduleCalendar.paris_spring_2024 1712104200000
    = (λ i, Some (1712104200000 + 3600000 + (i - 3) * ScheduleCalendar.msPerDay))
        <$> [0; 1; 2; 3; 4; 5; 6]) by (vm_compute; reflexivity).
  split; [vm_compute; reflexivity|]. split; [|split; [exact Hdays|]].
  - intros Hs. destruct (Hs 0 ltac:(lia)) as [Hback _]. vm_compute in Hback.
    discriminate.
  - rewrite Hdays.
    repeat (constructor; [eexists; split; [reflexivity|vm_compute; reflexivity]|]).
    constructor.
Qed.


(** ** Colours *)

(** X6. The four statuses of a meeting have four different colours, and
    any other string is coloured like ['pending']. *)
Theorem meeting_colours_tell_statuses_apart :
  (∀ s1 s2,
     ScheduleCalendar.getMeetingStatusColor (ScheduleCalendar.status_text s1)
     = ScheduleCalendar.getMeetingStatusColor (ScheduleCalendar.status_text s2) →
     s1 = s2)
  ∧ (∀ status,
       (∀ s, status ≠ ScheduleCalendar.status_text s) →
       ScheduleCalendar.getMeetingStatusColor status
       = ScheduleCalendar.getMeetingStatusColor "pending").
Proof.
  split.
  - intros [] []; vm_compute; congruence.
  - intros status Hs. unfold ScheduleCalendar.getMeetingStatusColor.
    pose proof (Hs Meeting.pending). pose proof (Hs Meeting.confirmed).
    pose proof (Hs Meeting.cancelled). pose proof (Hs Meeting.completed).
    simpl in *. by repeat case_decide.
Qed.

(** X7. The discover screen and the profile screen colour every status
    string alike; the three presence statuses have three different
    colours, any other string is coloured like ['offline'], and its text
    is ['Unknown'], which no presence status has. *)
Theorem presence_colours_agree :
  (∀ status,
     Presence.discover_getStatusColor status
     = Presence.profile_getStatusColor status)
  ∧ (∀ s1 s2,
       Presence.discover_getStatusColor (Presence.status_text s1)
       = Presence.discover_getStatusColor (Presence.status_text s2) →
       s1 = s2)
  ∧ (∀ status,
       Presence.getStatusText status = "Unknown"
       ↔ ∀ s, status ≠ Presence.status_text s)
  ∧ (∀ status,
       (∀ s, status ≠ Presence.status_text s) →
       Presence.discover_getStatusColor status
       = Presence.discover_getStatusColor "offline").
Proof.
  split; [done|]. split; [|split].
  - intros [] []; vm_compute; congruence.
  - intros status. unfold Presence.getStatusText. split.
    + intros Hu [] ->; simpl in Hu; by repeat case_decide.
    + intros Hs. pose proof (Hs UserProfile.available).
      pose proof (Hs UserProfile.busy). pose proof (Hs UserProfile.offline).
      simpl in *. by repeat case_decide.
  - intros status Hs. unfold Presence.discover_getStatusColor.
    pose proof (Hs UserProfile.available).
    pose proof (Hs UserProfile.busy). pose proof (Hs UserProfile.offline).
    simpl in *. by repeat case_decide.
Qed.

(** ** The filter of the discover screen *)

Lemma filter_filter_same {A} (f : A → bool) l :
  List.filter f (List.filter f l) = List.filter f l.
Proof.
  induction l as [|x l IH]; simpl; [done|].
  destruct (f x) eqn:Hx; simpl; [|done]. by rewrite Hx, IH.
Qed.

Lemma filter_filter_comm {A} (f g : A → bool) l :
  List.filter f (List.filter g l) = List.filter g (List.filter f l).
Proof.
  induction l as [|x l IH]; simpl; [done|].
  destruct (g x) eqn:Hg, (f x) eqn:Hf; simpl; rewrite ?Hg, ?Hf, ?IH; done.
Qed.

Lemma filter_sublist_of {A} (f : A → bool) l : List.filter f l `sublist_of` l.
Proof.
  induction l as [|x l IH]; simpl; [done|].
  destruct (f x); [by apply sublist_skip|by apply sublist_cons].
Qed.

Lemma elem_of_List_filter {A} (f : A → bool) l x :
  x ∈ List.filter f l ↔ x ∈ l ∧ f x = true.
Proof. rewrite !list_elem_of_In. apply filter_In. Qed.

(** X8. The filtered list keeps the order of the loaded profiles and
    holds exactly those that pass both tests: the search test, passed by
    all when the query is blank and otherwise by the profiles of which
    one of the five fields contains the lower-cased, untrimmed query; and
    the industry test, passed by all for ['all'] and otherwise by the
    profiles with just that industry, so that a profile without industry
    is left out. *)
Theorem filterProfiles_keeps_what_passes (ops : DiscoverFilter.StringOps)
    (profiles : list UserProfile.t) (searchQuery selectedIndustry : string) :
  DiscoverFilter.filterProfiles ops profiles searchQuery selectedIndustry
    `sublist_of` profiles
  ∧ ∀ p,
      p ∈ DiscoverFilter.filterProfiles ops profiles searchQuery selectedIndustry
      ↔ p ∈ profiles
        ∧ (DiscoverFilter.trim ops searchQuery = ""
           ∨ DiscoverFilter.matches ops
               (DiscoverFilter.toLowerCase ops searchQuery) p = true)
        ∧ (selectedIndustry = "all"
           ∨ UserProfile.industry p = Some selectedIndustry).
Proof.
  unfold DiscoverFilter.filterProfiles. split.
  - repeat case_decide; try done;
      repeat (etrans; [apply filter_sublist_of|]); done.
  - intros p. repeat case_decide;
      rewrite ?elem_of_List_filter, ?bool_decide_eq_true; intuition congruence.
Qed.

(** X9. Filtering what has been filtered, with the same query and
    industry, changes nothing. *)
Theorem filterProfiles_idempotent (ops : DiscoverFilter.StringOps)
    (profiles : list UserProfile.t) (searchQuery selectedIndustry : string) :
  DiscoverFilter.filterProfiles ops
    (DiscoverFilter.filterProfiles ops profiles searchQuery selectedIndustry)
    searchQuery selectedIndustry
  = DiscoverFilter.filterProfiles ops profiles searchQuery selectedIndustry.
Proof.
  unfold DiscoverFilter.filterProfiles. repeat case_decide; try done.
  - rewrite (filter_filter_comm (DiscoverFilter.matches _ _)).
    by rewrite !filter_filter_same.
  - apply filter_filter_same.
  - apply filter_filter_same.
Qed.

(** ** The cards of the connections screen *)

Lemma length_omap_filter {A B} (f : A → option B) l :
  length (omap f l) = length (filter (λ x, is_Some (f x)) l).
Proof.
  induction l as [|x l IH]; simpl; [done|].
  rewrite filter_cons. destruct (f x) eqn:Hx.
  - rewrite decide_True by (by eexists). simpl. f_equal. exact IH.
  - rewrite decide_False; [exact IH|]. by intros [? ?].
Qed.

(** X10. A connection whose other party has no embedded profile gets no
    card, while the count on the tab is that of all connections: the tab
    shows as many cards as there are connections with that profile, never
    more than it counts; and when no connection of a list that is not
    empty has it, the tab shows neither a card nor the empty state. *)
Theorem connections_tab_counts_hidden_cards (store : Store)
    (user : option User) (s : ConnectionsScreen.State) :
  length (ConnectionsRender.connectionsTab store user s).1
  = length (filter (λ c, is_Some (ConnectionsRender.otherProfile user c))
                   (ConnectionsScreen.connections s))
  ∧ (length (ConnectionsRender.connectionsTab store user s).1
     ≤ ConnectionsRender.getTabCount s "connections")%nat
  ∧ (ConnectionsScreen.connections s ≠ [] →
     Forall (λ c, ConnectionsRender.otherProfile user c = None)
            (ConnectionsScreen.connections s) →
     ConnectionsRender.connectionsTab store user s = ([], false)).
Proof.
  assert (Hsome : ∀ c, is_Some (ConnectionsRender.renderConnectionCard
                                  store user c false)
                       ↔ is_Some (ConnectionsRender.otherProfile user c)).
  { intros c. unfold ConnectionsRender.renderConnectionCard.
    destruct (ConnectionsRender.otherProfile user c); split; intros [? ?];
      first [done|by eexists]. }
  unfold ConnectionsRender.connectionsTab. simpl. split; [|split].
  - rewrite length_omap_filter. f_equal. apply list_filter_iff. intros c. apply Hsome.
  - rewrite length_omap_filter. unfold ConnectionsRender.getTabCount.
    rewrite decide_True by done. apply length_filter.
  - intros Hne Hall. f_equal.
    + induction Hall as [|c l Hc Hall IH]; [done|]. simpl.
      unfold ConnectionsRender.renderConnectionCard at 1. rewrite Hc.
      destruct l as [|c' l]; [done|]. by apply IH.
    + apply bool_decide_eq_false.
      by destruct (ConnectionsScreen.connections s).
Qed.

(** ** Outcomes of the fetches and of the writes *)

Ltac run_screen :=
  unfold ScheduleScreen.updateMeetingStatus, ScheduleScreen.fetchMeetings,
    ScheduleScreen.setMeetings, ScheduleScreen.setLoading,
    DiscoverScreen.fetchProfiles, DiscoverScreen.sendConnectionRequest,
    DiscoverScreen.setProfiles, DiscoverScreen.setLoading,
    ConnectionsScreen.handleConnectionResponse,
    ConnectionsScreen.fetchConnections, ConnectionsScreen.query,
    ConnectionsScreen.setLists, ConnectionsScreen.setLoading,
    try_catch_finally, try_catch, setState, console_error, Alert_alert, await,
    throw;
  unfold mbind, M_bind, mret, M_ret; simpl.

(** X12. [fetchMeetings] never throws and always ends with [loading]
    off. It sends one query, for the selected date. When the query
    succeeds the meetings are replaced by its rows, by none when it hands
    no data; when it fails the meetings stay as they were, one line is
    logged and the user is told ['Failed to load meetings']. Signed out,
    it does nothing. *)
Theorem fetchMeetings_outcome (store : Store) (user : User)
    (w : World ScheduleScreen.State) :
  let answer :=
    meetings_on store (user_id user) (ScheduleScreen.selectedDate (screen w)) in
  let w' := (ScheduleScreen.fetchMeetings store (Some user) w).2 in
  (ScheduleScreen.fetchMeetings store (Some user) w).1 = Normal tt
  ∧ screen w'
    = {| ScheduleScreen.meetings :=
           if succeeded answer then rows_of answer
           else ScheduleScreen.meetings (screen w);
         ScheduleScreen.selectedDate := ScheduleScreen.selectedDate (screen w);
         ScheduleScreen.loading := false |}
  ∧ requests w'
    = requests w ++ [select_meetings (user_id user)
                                     (ScheduleScreen.selectedDate (screen w))]
  ∧ alerts w'
    = alerts w ++ (if succeeded answer then []
                   else [("Error", "Failed to load meetings")])
  ∧ length (console w')
    = (length (console w) + (if succeeded answer then 0 else 1))%nat
  ∧ ScheduleScreen.fetchMeetings store None w = (Normal tt, w).
Proof.
  simpl. unfold succeeded, rows_of.
  destruct (meetings_on store (user_id user)
              (ScheduleScreen.selectedDate (screen w))) as [[d [e|]]|e] eqn:Ha;
    run_screen; rewrite ?Ha; simpl;
    rewrite ?app_nil_r, ?length_app; simpl; repeat split; done.
Qed.

(** X13. [fetchProfiles] behaves alike for the profiles of the discover
    screen: one query, the rows on success, the former list, a logged line
    and ['Failed to load profiles'] on failure, [loading] off at the end,
    and nothing at all when signed out. *)
Theorem fetchProfiles_outcome (store : Store) (user : User)
    (w : World DiscoverScreen.State) :
  let answer := profiles_except store (user_id user) in
  let w' := (DiscoverScreen.fetchProfiles store (Some user) w).2 in
  (DiscoverScreen.fetchProfiles store (Some user) w).1 = Normal tt
  ∧ screen w'
    = {| DiscoverScreen.profiles :=
           if succeeded answer then rows_of answer
           else DiscoverScreen.profiles (screen w);
         DiscoverScreen.loading := false |}
  ∧ requests w' = requests w ++ [select_profiles_except (user_id user)]
  ∧ alerts w'
    = alerts w ++ (if succeeded answer then []
                   else [("Error", "Failed to load profiles")])
  ∧ length (console w')
    = (length (console w) + (if succeeded answer then 0 else 1))%nat
  ∧ DiscoverScreen.fetchProfiles store None w = (Normal tt, w).
Proof.
  simpl. unfold succeeded, rows_of.
  destruct (profiles_except store (user_id user)) as [[d [e|]]|e] eqn:Ha;
    run_screen; rewrite ?Ha; simpl;
    rewrite ?app_nil_r, ?length_app; simpl; repeat split; done.
Qed.

(** X14. [fetchConnections] is all or nothing: its three queries go out
    one after the other and stop at the first that fails; the three lists
    are replaced together when all three succeed and all stay as they
    were otherwise, with ['Failed to load connections'] shown. *)
Theorem fetchConnections_all_or_nothing (store : Store) (user : User)
    (w : World ConnectionsScreen.State) :
  let q1 := accepted_involving (user_id user) in
  let q2 := pending_requested (user_id user) in
  let q3 := pending_requester (user_id user) in
  let a1 := connections_matching store q1 in
  let a2 := connections_matching store q2 in
  let a3 := connections_matching store q3 in
  let all := succeeded a1 && succeeded a2 && succeeded a3 in
  let w' := (ConnectionsScreen.fetchConnections store (Some user) w).2 in
  (ConnectionsScreen.fetchConnections store (Some user) w).1 = Normal tt
  ∧ screen w'
    = (if all then
         {| ConnectionsScreen.connections := rows_of a1;
            ConnectionsScreen.pendingRequests := rows_of a2;
            ConnectionsScreen.sentRequests := rows_of a3;
            ConnectionsScreen.loading := false |}
       else
         {| ConnectionsScreen.connections :=
              ConnectionsScreen.connections (screen w);
            ConnectionsScreen.pendingRequests :=
              ConnectionsScreen.pendingRequests (screen w);
            ConnectionsScreen.sentRequests :=
              ConnectionsScreen.sentRequests (screen w);
            ConnectionsScreen.loading := false |})
  ∧ requests w'
    = requests w ++ select_connections q1
        :: (if succeeded a1 then
              select_connections q2
                :: (if succeeded a2 then [select_connections q3] else [])
            else [])
  ∧ alerts w'
    = alerts w ++ (if all then [] else [("Error", "Failed to load connections")]).
Proof.
  simpl. unfold succeeded, rows_of.
  destruct (connections_matching store (accepted_involving (user_id user)))
    as [[d1 [e1|]]|e1] eqn:H1;
    [run_screen; rewrite ?H1; simpl; rewrite ?app_nil_r; repeat split; done
    | |run_screen; rewrite ?H1; simpl; rewrite ?app_nil_r; repeat split; done].
  destruct (connections_matching store (pending_requested (user_id user)))
    as [[d2 [e2|]]|e2] eqn:H2;
    [run_screen; rewrite ?H1; simpl; rewrite ?H2; simpl;
     rewrite <- ?app_assoc, ?app_nil_r; repeat split; done
    | |run_screen; rewrite ?H1; simpl; rewrite ?H2; simpl;
       rewrite <- ?app_assoc, ?app_nil_r; repeat split; done].
  destruct (connections_matching store (pending_requester (user_id user)))
    as [[d3 [e3|]]|e3] eqn:H3;
    run_screen; rewrite ?H1; simpl; rewrite ?H2; simpl; rewrite ?H3; simpl;
    rewrite <- ?app_assoc, ?app_nil_r; repeat split; done.
Qed.

Lemma fetchMeetings_returns store user w :
  (ScheduleScreen.fetchMeetings store user w).1 = Normal tt.
Proof.
  destruct user as [user|]; [|done].
  destruct (meetings_on store (user_id user)
              (ScheduleScreen.selectedDate (screen w))) as [[d [e|]]|e] eqn:Ha;
    run_screen; by rewrite Ha.
Qed.

Lemma fetchConnections_returns store user w :
  (ConnectionsScreen.fetchConnections store user w).1 = Normal tt.
Proof.
  destruct user as [user|]; [|done].
  destruct (connections_matching store (accepted_involving (user_id user)))
    as [[d1 [e1|]]|e1] eqn:H1; [by run_screen; rewrite ?H1| |by run_screen; rewrite ?H1].
  destruct (connections_matching store (pending_requested (user_id user)))
    as [[d2 [e2|]]|e2] eqn:H2;
    [by run_screen; rewrite ?H1; simpl; rewrite ?H2
    | |by run_screen; rewrite ?H1; simpl; rewrite ?H2].
  destruct (connections_matching store (pending_requester (user_id user)))
    as [[d3 [e3|]]|e3] eqn:H3;
    by run_screen; rewrite ?H1; simpl; rewrite ?H2; simpl; rewrite ?H3.
Qed.

(** X15. [updateMeetingStatus] never throws and sends one write, of the
    status it is given for the meeting it is given. When the write
    succeeds the user is told ['Meeting confirmed!'] or ['Meeting
    cancelled!'] and the meetings are fetched anew, the list on the screen
    being changed by that fetch only; when it fails the screen stays as it
    was, nothing is fetched, one line is logged and the user is told
    ['Failed to update meeting']. *)
Theorem updateMeetingStatus_outcome (store : Store) (user : option User)
    (meetingId : string) (status : ScheduleScreen.NewStatus)
    (w : World ScheduleScreen.State) :
  let rq := update_meeting (ScheduleScreen.status_of status) meetingId in
  let w' := (ScheduleScreen.updateMeetingStatus store user meetingId status w).2 in
  (ScheduleScreen.updateMeetingStatus store user meetingId status w).1 = Normal tt
  ∧ (succeeded (written store rq) = true →
       ScheduleScreen.updateMeetingStatus store user meetingId status w
       = ScheduleScreen.fetchMeetings store user
           {| screen := screen w;
              requests := requests w ++ [rq];
              console := console w;
              alerts := alerts w
                ++ [("Success",
                     "Meeting " +:+ ScheduleScreen.text_of status +:+ "!")] |})
  ∧ (succeeded (written store rq) = false →
       screen w' = screen w
       ∧ requests w' = requests w ++ [rq]
       ∧ alerts w' = alerts w ++ [("Error", "Failed to update meeting")]
       ∧ length (console w') = S (length (console w))).
Proof.
  simpl. unfold succeeded.
  set (rq := update_meeting (ScheduleScreen.status_of status) meetingId).
  unfold ScheduleScreen.updateMeetingStatus, try_catch, await, throw,
    Alert_alert, console_error.
  unfold mbind, M_bind, mret, M_ret. fold rq.
  destruct (written store rq) as [[d [e|]]|e] eqn:Ha; simpl;
    rewrite ?length_app; simpl.
  - repeat split; try done. lia.
  - match goal with
    | |- context [ScheduleScreen.fetchMeetings store user ?w0] =>
        pose proof (fetchMeetings_returns store user w0) as Hret;
        destruct (ScheduleScreen.fetchMeetings store user w0) as [r w1]
    end.
    simpl in Hret. subst r. done.
  - repeat split; try done. lia.
Qed.

(** X16. [handleConnectionResponse] never throws and sends one write, of
    ['accepted'] or ['rejected'] for the connection it is given. When the
    write succeeds the user is told so and the three lists are fetched
    anew; when it fails the screen stays as it was, nothing is fetched,
    one line is logged and the user is told ['Failed to update
    connection']. *)
Theorem handleConnectionResponse_outcome (store : Store) (user : option User)
    (connectionId : string) (status : ConnectionsScreen.Answer)
    (w : World ConnectionsScreen.State) :
  let rq := update_connection (ConnectionsScreen.status_of status) connectionId in
  let w' :=
    (ConnectionsScreen.handleConnectionResponse store user connectionId status w).2 in
  (ConnectionsScreen.handleConnectionResponse store user connectionId status w).1
  = Normal tt
  ∧ (succeeded (written store rq) = true →
       ConnectionsScreen.handleConnectionResponse store user connectionId status w
       = ConnectionsScreen.fetchConnections store user
           {| screen := screen w;
              requests := requests w ++ [rq];
              console := console w;
              alerts := alerts w
                ++ [("Success",
                     "Connection " +:+ ConnectionsScreen.text_of status +:+ "!")] |})
  ∧ (succeeded (written store rq) = false →
       screen w' = screen w
       ∧ requests w' = requests w ++ [rq]
       ∧ alerts w' = alerts w ++ [("Error", "Failed to update connection")]
       ∧ length (console w') = S (length (console w))).
Proof.
  simpl. unfold succeeded.
  set (rq := update_connection (ConnectionsScreen.status_of status) connectionId).
  unfold ConnectionsScreen.handleConnectionResponse, try_catch, await, throw,
    Alert_alert, console_error.
  unfold mbind, M_bind, mret, M_ret. fold rq.
  destruct (written store rq) as [[d [e|]]|e] eqn:Ha; simpl;
    rewrite ?length_app; simpl.
  - repeat split; try done. lia.
  - match goal with
    | |- context [ConnectionsScreen.fetchConnections store user ?w0] =>
        pose proof (fetchConnections_returns store user w0) as Hret;
        destruct (ConnectionsScreen.fetchConnections store user w0) as [r w1]
    end.
    simpl in Hret. subst r. done.
  - repeat split; try done. lia.
Qed.

Lemma fetchConnections_requests store user w :
  ∃ rest, requests (ConnectionsScreen.fetchConnections store user w).2
          = requests w ++ rest
          ∧ Forall (λ rq, ∃ q, rq = select_connections q) rest.
Proof.
  destruct user as [user|]; [|exists []; by rewrite app_nil_r].
  destruct (connections_matching store (accepted_involving (user_id user)))
    as [[d1 [e1|]]|e1] eqn:H1;
    [eexists [_]; run_screen; rewrite ?H1; simpl; split; [done|];
     repeat constructor; by eexists
    | |eexists [_]; run_screen; rewrite ?H1; simpl; split; [done|];
       repeat constructor; by eexists].
  destruct (connections_matching store (pending_requested (user_id user)))
    as [[d2 [e2|]]|e2] eqn:H2;
    [eexists [_; _]; run_screen; rewrite ?H1; simpl; rewrite ?H2; simpl;
     rewrite <- ?app_assoc; split; [done|]; repeat constructor; by eexists
    | |eexists [_; _]; run_screen; rewrite ?H1; simpl; rewrite ?H2; simpl;
       rewrite <- ?app_assoc; split; [done|]; repeat constructor; by eexists].
  destruct (connections_matching store (pending_requester (user_id user)))
    as [[d3 [e3|]]|e3] eqn:H3;
    eexists [_; _; _]; run_screen; rewrite ?H1; simpl; rewrite ?H2; simpl;
    rewrite ?H3; simpl; rewrite <- ?app_assoc; (split; [done|]);
    repeat constructor; by eexists.
Qed.

Lemma handleConnectionResponse_answers store user request status :
  ConnectionsRender.answers status request
    (ConnectionsScreen.handleConnectionResponse store user
       (Connection.id request) status).
Proof.
  intros w.
  set (rq := update_connection (ConnectionsScreen.status_of status)
                               (Connection.id request)).
  unfold ConnectionsScreen.handleConnectionResponse, try_catch, await, throw,
    Alert_alert, console_error.
  unfold mbind, M_bind, mret, M_ret. fold rq.
  destruct (written store rq) as [[d [e|]]|e] eqn:Ha; simpl.
  - split; [done|]. by exists [].
  - match goal with
    | |- context [ConnectionsScreen.fetchConnections store user ?w0] =>
        pose proof (fetchConnections_returns store user w0) as Hret;
        destruct (fetchConnections_requests store user w0)
          as (rest & Hrest & Hsel);
        destruct (ConnectionsScreen.fetchConnections store user w0) as [r w1]
    end.
    simpl in *. subst r. split; [done|]. exists rest.
    split; [|done]. simpl. by rewrite Hrest, <- app_assoc.
  - split; [done|]. by exists [].
Qed.

(** X11. What the tab of the requests received lets the user do. Each
    of its cards stands for one of the pending requests, of which it
    shows the other party, and has two buttons: the first answers that
    request with ['accepted'], the second with ['rejected'], which is to
    say that pressing it never throws, sends the write of that status on
    the row of that request and, after it, nothing but queries for
    connections. Every pending request that embeds the profile of its
    other party has such a card, and one that does not has none. The
    cards of the tab of the connections have no handler at all. *)
Theorem pending_cards_answer_their_own_request (store : Store)
    (user : option User) (s : ConnectionsScreen.State) :
  Forall (λ card,
    ∃ request accept decline,
      request ∈ ConnectionsScreen.pendingRequests s
      ∧ ConnectionsRender.otherProfile user request
        = Some (ConnectionsRender.shown card)
      ∧ ConnectionsRender.onPress <$> ConnectionsRender.actions card
        = [Some accept; Some decline]
      ∧ ConnectionsRender.answers ConnectionsScreen.accepted request accept
      ∧ ConnectionsRender.answers ConnectionsScreen.rejected request decline)
    (ConnectionsRender.pendingTab store user s).1
  ∧ ConnectionsRender.shown <$> (ConnectionsRender.pendingTab store user s).1
    = omap (ConnectionsRender.otherProfile user)
           (ConnectionsScreen.pendingRequests s)
  ∧ Forall (λ card,
      Forall (λ button, ConnectionsRender.onPress button = None)
             (ConnectionsRender.actions card))
    (ConnectionsRender.connectionsTab store user s).1.
Proof.
  unfold ConnectionsRender.pendingTab, ConnectionsRender.connectionsTab. simpl.
  split; [|split].
  - apply Forall_forall. intros card Hcard.
    apply list_elem_of_omap in Hcard as (request & Hin & Hcard).
    unfold ConnectionsRender.renderConnectionCard in Hcard.
    destruct (ConnectionsRender.otherProfile user request) as [p|] eqn:Hp; [|done].
    injection Hcard as <-. eexists request, _, _. simpl.
    split; [done|]. split; [done|]. split; [done|].
    split; apply handleConnectionResponse_answers.
  - induction (ConnectionsScreen.pendingRequests s) as [|request l IH]; [done|].
    simpl. unfold ConnectionsRender.renderConnectionCard at 1.
    destruct (ConnectionsRender.otherProfile user request);
      [rewrite fmap_cons; simpl; f_equal; exact IH|exact IH].
  - apply Forall_forall. intros card Hcard.
    apply list_elem_of_omap in Hcard as (connection & Hin & Hcard).
    unfold ConnectionsRender.renderConnectionCard in Hcard.
    destruct (ConnectionsRender.otherProfile user connection); [|done].
    injection Hcard as <-. simpl. by repeat constructor.
Qed.

(** X17. [sendConnectionRequest] never throws and leaves the screen as it
    is. Signed in, it sends one insert, from the user to the target and
    with status ['pending'], and shows one dialog: ['Connection request
    sent!'] when the insert succeeds, ['Failed to send connection
    request'], with one logged line, when it fails. Signed out, it does
    nothing. *)
Theorem sendConnectionRequest_outcome (store : Store) (user : User)
    (targetUserId : string) (w : World DiscoverScreen.State) :
  let rq := insert_connection (user_id user) targetUserId Connection.pending in
  let w' :=
    (DiscoverScreen.sendConnectionRequest store (Some user) targetUserId w).2 in
  (DiscoverScreen.sendConnectionRequest store (Some user) targetUserId w).1
  = Normal tt
  ∧ screen w' = screen w
  ∧ requests w' = requests w ++ [rq]
  ∧ alerts w'
    = alerts w ++ [if succeeded (written store rq)
                   then ("Success", "Connection request sent!")
                   else ("Error", "Failed to send connection request")]
  ∧ length (console w')
    = (length (console w) + (if succeeded (written store rq) then 0 else 1))%nat
  ∧ DiscoverScreen.sendConnectionRequest store None targetUserId w
    = (Normal tt, w).
Proof.
  simpl. unfold succeeded.
  destruct (written store
              (insert_connection (user_id user) targetUserId Connection.pending))
    as [[d [e|]]|e] eqn:Ha;
    run_screen; rewrite ?Ha; simpl; rewrite ?length_app; simpl;
    repeat split; try done; lia.
Qed.

(** X18. [fetchConversations] never shows a dialog and, signed in, always
    ends with [loading] off. When the query of the messages fails, the
    conversations stay as they were, no profile lookup is sent and one
    line is logged. Signed out, it does nothing. *)
Theorem fetchConversations_failure_is_silent (store : Store) (user : User)
    (w : World MessagesScreen.State) :
  let w' := (MessagesScreen.fetchConversations store (Some user) w).2 in
  alerts w' = alerts w
  ∧ MessagesScreen.loading (screen w') = false
  ∧ (succeeded (messages_involving store (user_id user)) = false →
       MessagesScreen.conversations (screen w')
       = MessagesScreen.conversations (screen w)
       ∧ requests w' = requests w ++ [select_messages (user_id user)]
       ∧ length (console w') = S (length (console w)))
  ∧ MessagesScreen.fetchConversations store None w = (Normal tt, w).
Proof.
  cbv zeta. split; [|split; [|split; [|done]]].
  - destruct (fetchConversations_world store user)
      as (convs & rqs & logged & _ & Hrun). by rewrite Hrun.
  - destruct (fetchConversations_world store user)
      as (convs & rqs & logged & _ & Hrun). by rewrite Hrun.
  - unfold succeeded.
    destruct (messages_involving store (user_id user)) as [[d [e|]]|e] eqn:Ha;
      [|done|].
    + intros _. erewrite fetchConversations_error by (by rewrite ?Ha).
      simpl. rewrite length_app. simpl. repeat split; try done. lia.
    + intros _. erewrite fetchConversations_rejected by done.
      simpl. rewrite length_app. simpl. repeat split; try done. lia.
Qed.

(** ** Notifications *)

Section Notifications.
Import NotificationContext.

Ltac run_notifications :=
  unfold requestPermissions, registerForPushNotificationsAsync,
    finalStatus, call, call_detached, alert;
  unfold mbind, M_bind, mret, M_ret; simpl.

(** X19. On the web [requestPermissions] answers [true] without a call.
    Elsewhere it reads the permission and prompts the user only when the
    permission read is not ['granted']; it answers [true] exactly when
    the permission is there in the end. *)
Theorem requestPermissions_prompts_only_when_needed (device : Device)
    (w : World) :
  (OS device = "web" → requestPermissions device w = (Normal true, w))
  ∧ (OS device ≠ "web" →
     existing_permission device = Resolved granted →
     requestPermissions device w
     = (Normal true,
        {| calls := calls w ++ [getPermissionsAsync]; alerted := alerted w;
           expoPushToken := expoPushToken w |}))
  ∧ (OS device ≠ "web" →
     ∀ b, (requestPermissions device w).1 = Normal b →
          (b = true ↔ permission_granted device))
  ∧ (∃ new, calls (requestPermissions device w).2 = calls w ++ new
            ∧ (requestPermissionsAsync ∈ new →
               ∃ s, existing_permission device = Resolved s ∧ s ≠ granted)).
Proof.
  unfold permission_granted. split; [|split; [|split]].
  - intros Hweb. unfold requestPermissions. by rewrite decide_True.
  - intros Hos Hex. run_notifications. rewrite decide_False, Hex by done.
    simpl. done.
  - intros Hos b. run_notifications. rewrite decide_False by done.
    destruct (existing_permission device) as [s|e]; simpl; [|done].
    destruct (decide (s ≠ granted)) as [Hs|Hs]; simpl.
    + destruct (requested_permission device) as [s'|e']; simpl; [|done].
      intros [= <-]. rewrite bool_decide_eq_true. split.
      * intros ->. right. split; [by exists s|done].
      * intros [[= ->]|[_ [= ->]]]; done.
    + intros [= <-]. rewrite bool_decide_eq_true.
      apply dec_stable in Hs. subst s. split; [by left|done].
  - run_notifications. destruct (decide (OS device = "web")); simpl.
    { exists []. split; [by rewrite app_nil_r|]. by intros ?%elem_of_nil. }
    destruct (existing_permission device) as [s|e]; simpl.
    + destruct (decide (s ≠ granted)) as [Hs|Hs]; simpl.
      * exists [getPermissionsAsync; requestPermissionsAsync]. split.
        -- destruct (requested_permission device); simpl; by rewrite <- app_assoc.
        -- intros _. by exists s.
      * exists [getPermissionsAsync]. split; [done|].
        intros Hin. apply list_elem_of_singleton in Hin. done.
    + exists [getPermissionsAsync]. split; [done|].
      intros Hin. apply list_elem_of_singleton in Hin. done.
Qed.

(** X20. A push token is asked for only off the web and with the
    permission there, and only then is a token handed back: it is the
    one the library gave. When the permission is refused the user is told
    and [null] is handed back without a token being asked for. *)
Theorem push_token_needs_permission (device : Device) (w : World) :
  (∀ token,
     (registerForPushNotificationsAsync device w).1 = Normal (Some token) →
     OS device ≠ "web" ∧ permission_granted device
     ∧ push_token device = Resolved token)
  ∧ (∃ new,
       calls (registerForPushNotificationsAsync device w).2 = calls w ++ new
       ∧ (getExpoPushTokenAsync ∈ new →
          OS device ≠ "web" ∧ permission_granted device))
  ∧ (OS device ≠ "web" →
     (∃ s, existing_permission device = Resolved s ∧ s ≠ granted) →
     (∃ s, requested_permission device = Resolved s ∧ s ≠ granted) →
     registerForPushNotificationsAsync device w
     = (Normal None,
        {| calls := calls w ++ [getPermissionsAsync; requestPermissionsAsync];
           alerted := alerted w
             ++ ["Failed to get push token for push notification!"];
           expoPushToken := expoPushToken w |})).
Proof.
  unfold permission_granted. split; [|split].
  - intros token. run_notifications.
    destruct (decide (OS device = "web")) as [Hweb|Hos]; simpl; [done|].
    destruct (existing_permission device) as [s|e]; simpl; [|done].
    destruct (decide (s ≠ granted)) as [Hs|Hs]; simpl.
    + destruct (requested_permission device) as [s'|e']; simpl; [|done].
      destruct (decide (s' ≠ granted)) as [Hs'|Hs']; simpl; [done|].
      apply dec_stable in Hs'. subst s'.
      destruct (push_token device) as [t|e]; simpl; [|done].
      destruct (decide (OS device = "android")); simpl; intros [= <-];
        (split; [done|]; split; [|done]; right; split; [by exists s|done]).
    + apply dec_stable in Hs. subst s.
      destruct (decide (granted ≠ granted)); [done|]. simpl.
      destruct (push_token device) as [t|e]; simpl; [|done].
      destruct (decide (OS device = "android")); simpl; intros [= <-];
        (split; [done|]; split; [by left|done]).
  - run_notifications.
    destruct (decide (OS device = "web")) as [Hweb|Hos]; simpl.
    { exists []. split; [by rewrite app_nil_r|]. by intros ?%elem_of_nil. }
    destruct (existing_permission device) as [s|e]; simpl.
    + destruct (decide (s ≠ granted)) as [Hs|Hs]; simpl.
      * destruct (requested_permission device) as [s'|e']; simpl.
        -- destruct (decide (s' ≠ granted)) as [Hs'|Hs']; simpl.
           ++ exists [getPermissionsAsync; requestPermissionsAsync].
              split; [by rewrite <- app_assoc|].
              intros Hin. apply elem_of_cons in Hin as [?|Hin]; [done|].
              by apply list_elem_of_singleton in Hin.
           ++ apply dec_stable in Hs'. subst s'.
              destruct (push_token device);
                [destruct (decide (OS device = "android"))|]; simpl;
                (eexists; split;
                 [rewrite <- ?app_assoc; simpl; reflexivity
                 |intros _; split; [done|]; right; split; [by exists s|done]]).
        -- exists [getPermissionsAsync; requestPermissionsAsync].
           split; [by rewrite <- app_assoc|].
           intros Hin. apply elem_of_cons in Hin as [?|Hin]; [done|].
           by apply list_elem_of_singleton in Hin.
      * apply dec_stable in Hs. subst s.
        destruct (decide (granted ≠ granted)); [done|]. simpl.
        destruct (push_token device);
          [destruct (decide (OS device = "android"))|]; simpl;
          (eexists; split;
           [rewrite <- ?app_assoc; simpl; reflexivity
           |intros _; split; [done|]; by left]).
    + exists [getPermissionsAsync]. split; [done|].
      intros Hin. by apply list_elem_of_singleton in Hin.
  - intros Hos (s & Hex & Hs) (s' & Hrq & Hs'). run_notifications.
    rewrite decide_False, Hex by done. simpl.
    rewrite decide_True, Hrq by done. simpl.
    rewrite decide_True by done. simpl. by rewrite <- app_assoc.
Qed.

End Notifications.

(** ** What the aggregation conserves *)

Lemma sum_list_with_ext {A} (f g : A → nat) l :
  (∀ x, x ∈ l → f x = g x) → sum_list_with f l = sum_list_with g l.
Proof.
  induction l as [|x l IH]; intros Hfg; simpl; [done|].
  rewrite Hfg by left. rewrite IH; [done|]. intros y Hy. apply Hfg. by right.
Qed.

Lemma sum_list_with_fmap {A B} (h : A → B) (g : B → nat) l :
  sum_list_with g (h <$> l) = sum_list_with (λ x, g (h x)) l.
Proof. induction l as [|x l IH]; [done|]. rewrite fmap_cons. simpl. by f_equal. Qed.

Lemma sum_list_with_indicator (keys : list Id) (k0 : Id) (f : Id → nat) (a : nat) :
  NoDup keys → k0 ∈ keys →
  sum_list_with (λ k, f k + (if decide (k0 = k) then a else 0))%nat keys
  = (sum_list_with f keys + a)%nat.
Proof.
  induction keys as [|k keys IH]; intros Hnd Hin; [by apply elem_of_nil in Hin|].
  apply NoDup_cons in Hnd as [Hk Hnd]. simpl.
  destruct (decide (k0 = k)) as [->|Hne].
  - rewrite (sum_list_with_ext _ f); [lia|]. intros k' Hk'.
    rewrite decide_False; [lia|]. by intros <-.
  - apply elem_of_cons in Hin as [?|Hin]; [done|]. rewrite IH by done. lia.
Qed.

Lemma filter_all {A} (l : list A) : filter (λ _, True) l = l.
Proof. induction l as [|x l IH]; [done|]. rewrite filter_cons_True by done. by rewrite IH. Qed.

Lemma count_by_thread user (P : Message.t → Prop) `{∀ m, Decision (P m)}
    (keys : list Id) (messages : list Message.t) :
  NoDup keys →
  (∀ m, m ∈ messages → otherUserIdOf user m ∈ keys) →
  sum_list_with (λ k, length (filter P (thread user k messages))) keys
  = length (filter P messages).
Proof.
  intros Hnd. induction messages as [|m l IH]; intros Hin.
  - simpl. clear. induction keys as [|k keys IHk]; [done|]. simpl. by rewrite IHk.
  - rewrite (sum_list_with_ext _
               (λ k, (length (filter P (thread user k l))
                      + (if decide (otherUserIdOf user m = k)
                         then (if decide (P m) then 1 else 0) else 0))%nat)).
    + rewrite sum_list_with_indicator; [|done|apply Hin; by left].
      rewrite IH by (intros m' Hm'; apply Hin; by right).
      rewrite filter_cons. case_decide; simpl; lia.
    + intros k _. unfold thread. rewrite (filter_cons _ m).
      destruct (decide (otherUserIdOf user m = k)); [|lia].
      rewrite filter_cons. destruct (decide (P m)); simpl; lia.
Qed.

(** X21. Every message falls in the partition of exactly one
    conversation of the list, and the unread counts of the conversations
    add up to the number of messages received by the user and not read. *)
Theorem unread_counts_add_up (user : User) (messages : list Message.t)
    (profiles : option (list UserProfile.t)) :
  ∃ out, aggregate user messages profiles = Normal out
    ∧ sum_list_with unreadCount out
      = length (filter (λ m, Message.receiver_id m = Some (user_id user)
                             ∧ Message.read m = false) messages)
    ∧ sum_list_with (λ c, length (thread user (otherUserId c) messages)) out
      = length messages.
Proof.
  destruct (aggregate_summaries user messages profiles)
    as (out & Hrun & Hnd & Hdom & Hsum).
  exists out. split; [done|].
  assert (Hcover : ∀ m, m ∈ messages → otherUserIdOf user m ∈ otherUserId <$> out).
  { intros m Hm. apply Hdom, list_elem_of_fmap. by exists m. }
  split.
  - rewrite <- (count_by_thread user _ (otherUserId <$> out) messages Hnd Hcover).
    rewrite sum_list_with_fmap. apply sum_list_with_ext.
    intros c Hc. by destruct (Hsum c Hc) as [_ Hu].
  - pose proof (count_by_thread user (λ _, True) (otherUserId <$> out) messages
                                Hnd Hcover) as Hall.
    rewrite sum_list_with_fmap, filter_all in Hall.
    rewrite <- Hall. apply sum_list_with_ext. intros c _. by rewrite filter_all.
Qed.

(** ** Where the profile of a conversation comes from *)

(** X22. The profile of a conversation is the one that the first message
    of its partition brings along, when it brings one: the lookup never
    replaces it. Otherwise it is the first profile handed back by the
    lookup whose id is the id of the counterparty, and there is none when
    the lookup hands back no such profile or no data. *)
Theorem profile_is_embedded_or_looked_up (user : User)
    (messages : list Message.t) (profiles : option (list UserProfile.t)) :
  ∃ out, aggregate user messages profiles = Normal out
    ∧ ∀ c, c ∈ out →
        otherUserProfile c
        = match first_profile user (thread user (otherUserId c) messages) with
          | Some p => Some p
          | None => find_profile profiles (otherUserId c)
          end
        ∧ (first_profile user (thread user (otherUserId c) messages) = None →
           ∀ p, otherUserProfile c = Some p →
                Some (UserProfile.id p) = otherUserId c
                ∧ ∃ ps, profiles = Some ps ∧ p ∈ ps).
Proof.
  destruct (aggregate_Grouped user messages profiles) as (st & _ & HG & Hagg).
  eexists. split; [exact Hagg|]. intros c Hc.
  rewrite Array_sort_Permutation in Hc.
  apply list_elem_of_fmap in Hc as (c0 & -> & Hc0).
  pose proof (proj1 (Forall_forall _ _) (grouped_sum _ _ _ HG) c0 Hc0) as [Hp _ _].
  rewrite otherUserId_resolve, <- Hp. unfold resolve, lacks_profile.
  destruct (otherUserProfile c0) as [p0|] eqn:Hp0; simpl.
  - rewrite Hp0. split; [done|]. intros Hnone. done.
  - split; [done|]. intros _ p Hfind. unfold find_profile in Hfind.
    destruct profiles as [ps|]; [|done].
    apply find_some in Hfind as [Hin Hid].
    apply bool_decide_eq_true in Hid. split; [done|].
    exists ps. split; [done|]. by apply list_elem_of_In.
Qed.

(** ** Messages that arrive newest first *)

Lemma first_seen_snoc l k :
  first_seen (l ++ [k])
  = if decide (k ∈ l) then first_seen l else first_seen l ++ [k].
Proof.
  induction l as [|a l IH]; [done|]. simpl. rewrite IH.
  destruct (decide (k = a)) as [->|Hne].
  - rewrite (decide_True (P := a ∈ a :: l)) by left.
    case_decide; [done|]. rewrite filter_app, filter_cons_False, filter_nil by naive_solver.
    by rewrite app_nil_r.
  - destruct (decide (k ∈ l)) as [Hin|Hout].
    + by rewrite decide_True by (by right).
    + rewrite decide_False by (by intros [?|?]%elem_of_cons).
      by rewrite filter_app, filter_cons_True, filter_nil.
Qed.

Lemma Array_sort_sorted_id {A} (comparefn : A → A → Z) l :
  StronglySorted (λ a b, comparefn a b ≤ 0) l → Array_sort comparefn l = l.
Proof.
  induction 1 as [|x l Hs IH Hx]; [done|]. simpl. rewrite IH.
  destruct l as [|y l]; [done|]. simpl.
  apply Forall_cons in Hx as [Hxy _]. by rewrite (proj2 (Z.leb_le _ _) Hxy).
Qed.

Lemma StronglySorted_insert_same {A} (key : A → Z) l : ∀ r c c',
  l !! r = Some c → key c' = key c →
  StronglySorted (λ a b, key b ≤ key a) l →
  StronglySorted (λ a b, key b ≤ key a) (<[r := c']> l).
Proof.
  induction l as [|x l IH]; intros r c c' Hr Hk Hs; [done|].
  apply StronglySorted_cons in Hs as [Hx Hs]. destruct r as [|r]; simpl in *.
  - injection Hr as ->. apply StronglySorted_cons. split; [|done].
    eapply Forall_impl; [exact Hx|]. simpl. intros. lia.
  - apply StronglySorted_cons. split; [|by eapply IH].
    apply Forall_insert; [done|].
    pose proof (proj1 (Forall_forall _ _) Hx c (list_elem_of_lookup_2 _ _ _ Hr)).
    simpl in *. lia.
Qed.

Lemma head_thread_snoc user k pre m x :
  head (thread user k pre) = Some x →
  head (thread user k (pre ++ [m])) = Some x.
Proof. intros Hx. rewrite thread_snoc, head_app, Hx. done. Qed.

Lemma Newest_first_step user pre st m st' :
  StronglySorted (λ a b, Message.created_at b ≤ Message.created_at a) (pre ++ [m]) →
  Grouped user pre st → Newest_first user pre st →
  groupStep user st m = Normal st' →
  Newest_first user (pre ++ [m]) st'.
Proof.
  intros Hs HG [Hord Hsorted Hhead] Hstep.
  apply StronglySorted_app in Hs as (Hlate & _ & _).
  assert (Hm : ∀ x, x ∈ pre → Message.created_at m ≤ Message.created_at x).
  { intros x Hx. apply (Hlate x m Hx). by left. }
  destruct (Map_get (otherUserIdOf user m) (conversationMap st)) as [r|] eqn:Hget.
  - assert (Hr := proj1 (grouped_map _ _ _ HG _ _) Hget).
    rewrite list_lookup_fmap in Hr.
    destruct (objects st !! r) as [c|] eqn:Hc; [|done]. injection Hr as Hk.
    rewrite (groupStep_existing _ _ _ _ _ Hget Hc) in Hstep. injection Hstep as <-.
    pose proof (proj1 (Forall_forall _ _) Hhead c (list_elem_of_lookup_2 _ _ _ Hc))
      as (lm & Hlm & Hhd & Hin).
    assert (Hsame : lastMessage (update user m c) = lastMessage c).
    { rewrite lastMessage_update. unfold more_recent. rewrite Hlm.
      rewrite (proj2 (Z.ltb_ge _ _)); [done|]. by apply Hm. }
    split; simpl.
    + rewrite list_fmap_insert, otherUserId_update, list_insert_id
        by (by rewrite list_lookup_fmap, Hc).
      rewrite Hord, fmap_app. simpl. rewrite first_seen_snoc, decide_True; [done|].
      apply (grouped_dom _ _ _ HG). rewrite <- Hk.
      apply list_elem_of_fmap. exists c. split; [done|].
      by eapply list_elem_of_lookup_2.
    + eapply StronglySorted_insert_same; [exact Hc| |done].
      unfold last_time. by rewrite Hsame.
    + apply Forall_insert.
      * eapply Forall_impl; [exact Hhead|]. simpl.
        intros c' (x & Hx & Hhx & Hxin). exists x. split; [done|].
        split; [by apply head_thread_snoc|]. apply elem_of_app. by left.
      * exists lm. rewrite Hsame, otherUserId_update. split; [done|].
        split; [by apply head_thread_snoc|]. apply elem_of_app. by left.
  - rewrite (groupStep_fresh _ _ _ Hget) in Hstep. injection Hstep as <-.
    assert (Hfresh : otherUserIdOf user m ∉ otherUserIdOf user <$> pre).
    { rewrite <- (grouped_dom _ _ _ HG). intros Hin.
      apply list_elem_of_lookup in Hin as [r Hr].
      apply (grouped_map _ _ _ HG) in Hr. congruence. }
    assert (Hlast : lastMessage (update user m (newConversation user m)) = Some m).
    { by rewrite lastMessage_update, more_recent_new. }
    split; simpl.
    + rewrite !fmap_app. simpl. rewrite first_seen_snoc, decide_False by done.
      by rewrite otherUserId_update, Hord.
    + apply StronglySorted_app. split; [|split; [done|repeat constructor]].
      intros a b Ha Hb. apply list_elem_of_singleton in Hb as ->.
      pose proof (proj1 (Forall_forall _ _) Hhead a Ha) as (x & Hx & _ & Hxin).
      unfold last_time. rewrite Hlast, Hx. by apply Hm.
    + apply Forall_app. split.
      * eapply Forall_impl; [exact Hhead|]. simpl.
        intros c' (x & Hx & Hhx & Hxin). exists x. split; [done|].
        split; [by apply head_thread_snoc|]. apply elem_of_app. by left.
      * constructor; [|constructor]. exists m. split; [done|].
        rewrite otherUserId_update. simpl.
        rewrite thread_snoc, decide_True, (thread_nil _ _ _ Hfresh) by done.
        split; [done|]. apply elem_of_app. right. by left.
Qed.

Lemma Newest_first_forEach user l : ∀ pre st,
  StronglySorted (λ a b, Message.created_at b ≤ Message.created_at a) (pre ++ l) →
  Grouped user pre st → Newest_first user pre st →
  ∃ st', forEach (groupStep user) l st = Normal st'
         ∧ Grouped user (pre ++ l) st' ∧ Newest_first user (pre ++ l) st'.
Proof.
  induction l as [|m l IH]; intros pre st Hs HG HN; simpl.
  - exists st. by rewrite app_nil_r.
  - destruct (Grouped_step user pre st m HG) as (st1 & Hstep & HG1).
    rewrite Hstep. simpl.
    replace (pre ++ m :: l) with ((pre ++ [m]) ++ l) in *
      by (by rewrite <- app_assoc).
    pose proof (StronglySorted_app_1_l _ _ _ Hs) as Hs1.
    pose proof (Newest_first_step _ _ _ _ _ Hs1 HG HN Hstep) as HN1.
    destruct (IH _ _ Hs HG1 HN1) as (st' & Hrun & HG' & HN').
    by exists st'.
Qed.

(** X23. When the messages arrive newest first, as the query orders
    them, the sort changes nothing: the conversations come out in the
    order in which their counterparties are first seen in the input, and
    the last message of each is the first message of its partition. *)
Theorem newest_first_input_is_kept (user : User) (messages : list Message.t)
    (profiles : option (list UserProfile.t)) :
  StronglySorted (λ a b, Message.created_at b ≤ Message.created_at a) messages →
  ∃ out, aggregate user messages profiles = Normal out
    ∧ otherUserId <$> out = first_seen (otherUserIdOf user <$> messages)
    ∧ ∀ c, c ∈ out →
           lastMessage c = head (thread user (otherUserId c) messages).
Proof.
  intros Hs.
  destruct (Newest_first_forEach user messages [] empty_Aggregation Hs
              (Grouped_empty user))
    as (st & Hrun & HG & [Hord Hsorted Hhead]).
  { split; simpl; [done|constructor|constructor]. }
  simpl in *. fold (groupMessages user messages) in Hrun.
  assert (Hagg : aggregate user messages profiles
                 = Normal (Array_sort compareConversations
                                      (resolve profiles <$> objects st))).
  { unfold aggregate. rewrite Hrun. simpl.
    apply (after_group _ _ profiles _ HG). }
  assert (Hid : Array_sort compareConversations (resolve profiles <$> objects st)
                = resolve profiles <$> objects st).
  { apply Array_sort_sorted_id. clear -Hsorted Hhead.
    induction Hsorted as [|c l Hsl IH Hc]; [constructor|].
    apply Forall_cons in Hhead as [(x & Hx & _) Hhead].
    rewrite fmap_cons. constructor; [by apply IH|].
    apply Forall_fmap, Forall_forall. intros b Hb. simpl.
    pose proof (proj1 (Forall_forall _ _) Hhead b Hb) as (y & Hy & _).
    pose proof (proj1 (Forall_forall _ _) Hc b Hb) as Hcb. simpl in Hcb.
    unfold compareConversations, last_time in *.
    rewrite !lastMessage_resolve, Hx, Hy. rewrite Hx, Hy in Hcb. lia. }
  rewrite Hid in Hagg. eexists. split; [exact Hagg|]. split.
  - rewrite <- list_fmap_compose, <- Hord. apply list_fmap_ext.
    intros i c _. apply otherUserId_resolve.
  - intros c Hc. apply list_elem_of_fmap in Hc as (c0 & -> & Hc0).
    pose proof (proj1 (Forall_forall _ _) Hhead c0 Hc0) as (x & Hx & Hhx & _).
    by rewrite lastMessage_resolve, otherUserId_resolve, Hx, Hhx.
Qed.

(** ** The answer of the lookup *)

(** X24. Of the answer of the batch lookup only the rows are read: two
    stores that give the same answer for the messages, and lookups that
    settle alike with the same rows, lead to the same run, whatever the
    [error] of the lookup answers and whatever else the stores hold. *)
Theorem lookup_error_is_not_read (store1 store2 : Store) (user : User)
    (w : World MessagesScreen.State) :
  messages_involving store1 (user_id user)
  = messages_involving store2 (user_id user) →
  (∀ ids,
     match profiles_with_id_in store1 ids, profiles_with_id_in store2 ids with
     | Resolved r1, Resolved r2 => data r1 = data r2
     | Rejected e1, Rejected e2 => e1 = e2
     | _, _ => False
     end) →
  MessagesScreen.fetchConversations store1 (Some user) w
  = MessagesScreen.fetchConversations store2 (Some user) w.
Proof.
  intros Hmsg Hlook.
  destruct (messages_involving store1 (user_id user)) as [resp|e] eqn:Hq1.
  - destruct (error resp) as [e|] eqn:He.
    + rewrite (fetchConversations_error store1 _ _ _ _ Hq1 He).
      by rewrite (fetchConversations_error store2 _ _ resp e).
    + destruct (fetched_intro store1 user resp Hq1 He) as [st Hf1].
      assert (Hf2 : fetched store2 user (default [] (data resp)) st).
      { destruct Hf1 as [_ Hrest]. split; [|done]. by exists resp. }
      destruct (decide (missing_ids st = [])) as [Hnil|Hne].
      * rewrite (fetchConversations_complete _ _ _ _ _ Hf1 Hnil).
        by rewrite (fetchConversations_complete _ _ _ _ _ Hf2 Hnil).
      * specialize (Hlook (missing_ids st)).
        destruct (profiles_with_id_in store1 (missing_ids st)) as [r1|e1] eqn:Hp1,
                 (profiles_with_id_in store2 (missing_ids st)) as [r2|e2] eqn:Hp2;
          try done.
        -- rewrite (fetchConversations_looked_up _ _ _ _ _ _ Hf1 Hne Hp1).
           rewrite (fetchConversations_looked_up _ _ _ _ _ _ Hf2 Hne Hp2).
           by rewrite Hlook.
        -- rewrite (fetchConversations_lookup_rejected _ _ _ _ _ _ Hf1 Hne Hp1).
           rewrite (fetchConversations_lookup_rejected _ _ _ _ _ _ Hf2 Hne Hp2).
           by rewrite Hlook.
  - rewrite (fetchConversations_rejected store1 _ _ _ Hq1).
    by rewrite (fetchConversations_rejected store2 _ _ e).
Qed.

Lemma lookup_error_is_not_read_witness :
  MessagesScreen.fetchConversations store_lookup_failed (Some me) showing_earlier
  = MessagesScreen.fetchConversations store_lookup_empty (Some me) showing_earlier.
Proof.
  apply (lookup_error_is_not_read store_lookup_failed store_lookup_empty me
                                  showing_earlier).
  - reflexivity.
  - intros ids. reflexivity.
Defined.

Lemma newest_first_input_is_kept_witness :
  ∃ out, aggregate me reply_then_wait None = Normal out
    ∧ otherUserId <$> out = first_seen (otherUserIdOf me <$> reply_then_wait)
    ∧ ∀ c, c ∈ out →
           lastMessage c = head (thread me (otherUserId c) reply_then_wait).
Proof.
  apply (newest_first_input_is_kept me reply_then_wait None).
  repeat constructor. simpl. lia.
Defined.
